(** * OpenAPIRouter (src/router.ts): request matching and request parsing

    A shallow embedding of the router class and the properties its
    specification states about it.

    Conventions of the model.
    - A JavaScript string is a [string]: a sequence of 8-bit code units
      (the Latin-1 range of UTF-16).  [length] is the JS [.length].
    - A JavaScript object used as a map is an association list in the order
      in which [Object.entries] enumerates it.  Keys of a real object are
      unique; where a statement needs that, it says [NoDup] on the keys.
    - A regular expression built from a string at run time
      ([new RegExp(...)]) is compiled from that string by [compile], which
      covers the patterns made of ordinary characters, [.] and [[^/]+];
      a pattern with any other metacharacter is outside the model and
      the functions that need it answer [None].  [Regex.malformed] tells
      patterns on which the constructor throws a SyntaxError. *)

From Stdlib Require Import String Ascii List Bool Arith Lia NArith FinFun.
Import ListNotations.
Local Open Scope list_scope.
Local Open Scope string_scope.
Local Open Scope nat_scope.

Set Implicit Arguments.
Set Warnings "-register-all".

(* ------------------------------------------------------------------ *)
(** ** Strings as the code uses them *)

Module Str.

Definition same (c d : ascii) : bool := Ascii.eqb c d.

(** Line terminators among 8-bit code units: LF and CR.  The dot of a
    regular expression does not match them. *)
Definition lineTerminator (c : ascii) : bool :=
  let n := nat_of_ascii c in (n =? 10) || (n =? 13).

(** White space removed by [String.prototype.trim]: TAB, LF, VT, FF, CR,
    SP and NBSP. *)
Definition whiteSpace (c : ascii) : bool :=
  let n := nat_of_ascii c in
  ((9 <=? n) && (n <=? 13)) || (n =? 32) || (n =? 160).

Fixpoint dropWhile (f : ascii -> bool) (s : string) : string :=
  match s with
  | String c r => if f c then dropWhile f r else s
  | EmptyString => EmptyString
  end.

(** [allb f s]: every code unit of [s] satisfies [f]. *)
Fixpoint allb (f : ascii -> bool) (s : string) : bool :=
  match s with
  | String c r => f c && allb f r
  | EmptyString => true
  end.

(** Remove the longest suffix made of code units satisfying [f]. *)
Fixpoint dropWhileEnd (f : ascii -> bool) (s : string) : string :=
  match s with
  | String c r => if f c && allb f r then EmptyString
                  else String c (dropWhileEnd f r)
  | EmptyString => EmptyString
  end.

(** [s.trim()] *)
Definition trim (s : string) : string :=
  dropWhileEnd whiteSpace (dropWhile whiteSpace s).

(** [s.split(d)[0]] and the rest after the first [d], when there is one. *)
Fixpoint cut (d : ascii) (s : string) : string * option string :=
  match s with
  | String c r =>
      if same c d then (EmptyString, Some r)
      else let '(a, b) := cut d r in (String c a, b)
  | EmptyString => (EmptyString, None)
  end.

(** [s.split(d)] for a one-character separator. *)
Fixpoint split (d : ascii) (s : string) : list string :=
  match s with
  | String c r =>
      if same c d then EmptyString :: split d r
      else match split d r with
           | p :: ps => String c p :: ps
           | [] => [String c EmptyString]
           end
  | EmptyString => [EmptyString]
  end.

(** [s.startsWith(p)] *)
Fixpoint startsWith (p s : string) : bool :=
  match p, s with
  | EmptyString, _ => true
  | String a p', String b s' => same a b && startsWith p' s'
  | String _ _, EmptyString => false
  end.

(** [toLowerCase] on one 8-bit code unit: A-Z, and the Latin-1 capitals
    0xC0-0xDE except the multiplication sign 0xD7. *)
Definition lowerChar (c : ascii) : ascii :=
  let n := nat_of_ascii c in
  if ((65 <=? n) && (n <=? 90))
     || ((192 <=? n) && (n <=? 222) && negb (n =? 215))
  then ascii_of_nat (n + 32) else c.

Fixpoint toLowerCase (s : string) : string :=
  match s with
  | String c r => String (lowerChar c) (toLowerCase r)
  | EmptyString => EmptyString
  end.

(** Replace every [old] by the string [new]: [s.replace(/old/g, new)]
    for a one-character pattern. *)
Fixpoint replaceChar (old : ascii) (new : string) (s : string) : string :=
  match s with
  | String c r =>
      if same c old then new ++ replaceChar old new r
      else String c (replaceChar old new r)
  | EmptyString => EmptyString
  end.

(** Replace every occurrence of the three-character string [a b c],
    scanning left to right without overlap. *)
Fixpoint replace3 (a b c : ascii) (new : string) (s : string) : string :=
  match s with
  | String x r =>
      match r with
      | String y (String z r') =>
          if same x a && same y b && same z c
          then new ++ replace3 a b c new r'
          else String x (replace3 a b c new r)
      | _ => String x (replace3 a b c new r)
      end
  | EmptyString => EmptyString
  end.

End Str.

(* ------------------------------------------------------------------ *)
(** ** Regular expressions built at run time from a string *)

Module Regex.

(** The atoms of the covered patterns, in the order of the pattern. *)
Inductive atom : Type :=
| Bol                      (* ^ : start of the input *)
| Eol                      (* $ : end of the input *)
| Lit (c : ascii)          (* an ordinary character *)
| Opt (c : ascii)          (* c? : greedy, the character or nothing *)
| AnyChar                  (* . : any code unit but a line terminator *)
| NotSlashPlus.            (* [^/]+ : greedy, one or more non-slashes *)

Definition regex : Type := list atom.

(** Characters with a meaning of their own in a pattern.  [^], [$] and
    [.] are read by [compile]; the others are covered only in the two
    shapes [[^/]+] and [c?]. *)
Definition special (c : ascii) : bool :=
  negb (Str.allb (fun d => negb (Str.same c d)) "\^$.*+?()[]{}|").

Definition quantifier (c : ascii) : bool :=
  Str.same c "*" || Str.same c "+" || Str.same c "?" || Str.same c "{".

Definition classSuffix : string := "^/]+".

(** [compileFrom skip s]: the atoms of pattern text [s] after its first
    [skip] characters, which belong to the atom read just before.
    [None]: the text uses syntax this model does not cover. *)
Fixpoint compileFrom (skip : nat) (s : string) : option regex :=
  match s with
  | EmptyString => Some []
  | String c r =>
      match skip with
      | S k => compileFrom k r
      | 0 =>
          let next (a : atom) (n : nat) :=
            option_map (cons a) (compileFrom n r) in
          let followedByQuantifier :=
            match r with String q _ => quantifier q | _ => false end in
          if Str.same c "^" then next Bol 0
          else if Str.same c "$" then next Eol 0
          else if Str.same c "[" then
                 if Str.startsWith classSuffix r
                 then next NotSlashPlus 4 else None
          else if Str.same c "." then next AnyChar 0
          else if special c then None
          else if followedByQuantifier then
                 match r with
                 | String "?" _ => next (Opt c) 1
                 | _ => None
                 end
          else next (Lit c) 0
      end
  end.

(** [new RegExp(s)] *)
Definition compile (s : string) : option regex := compileFrom 0 s.

Definition repeater (c : ascii) : bool := Str.same c "*" || Str.same c "+".

(** [malformedFrom skip s]: reading the pattern text [s] as [compileFrom]
    does, is a place reached where the constructor is sure to throw a
    SyntaxError?  Two such places are covered: a closing parenthesis
    where a term begins (no group is open), and an ordinary character
    under a star or a plus that another star or plus follows (nothing to
    repeat).  The reading stops, with [false], at syntax that is outside
    the model. *)
Fixpoint malformedFrom (skip : nat) (s : string) : bool :=
  match s with
  | EmptyString => false
  | String c r =>
      match skip with
      | S k => malformedFrom k r
      | 0 =>
          if Str.same c ")" then true
          else if Str.same c "^" then malformedFrom 0 r
          else if Str.same c "$" then malformedFrom 0 r
          else if Str.same c "[" then
                 if Str.startsWith classSuffix r then malformedFrom 4 r
                 else false
          else if Str.same c "." then malformedFrom 0 r
          else if special c then false
          else match r with
               | String q r' =>
                   if quantifier q then
                     if Str.same q "?" then malformedFrom 1 r
                     else match r' with
                          | String q' _ => repeater q && repeater q'
                          | EmptyString => false
                          end
                   else malformedFrom 0 r
               | EmptyString => false
               end
      end
  end.

(** [new RegExp(s)] throws a SyntaxError (for one of the covered
    reasons). *)
Definition malformed (s : string) : bool := malformedFrom 0 s.

(** Backtracking matcher.  [run p k start s] matches the atoms [p] at
    the head of [s], trying the alternatives in the priority order of
    the JS engine (greedy first), and hands the unconsumed rest to the
    continuation [k]; [start] tells whether [s] is the whole input. *)
Fixpoint run (A : Type) (p : regex) (k : bool -> string -> option A)
         (start : bool) (s : string) : option A :=
  match p with
  | [] => k start s
  | Bol :: p' => if start then run p' k start s else None
  | Eol :: p' =>
      match s with EmptyString => run p' k start s | _ => None end
  | Lit c :: p' =>
      match s with
      | String d r => if Str.same c d then run p' k false r else None
      | EmptyString => None
      end
  | Opt c :: p' =>
      match s with
      | String d r =>
          if Str.same c d
          then match run p' k false r with
               | Some a => Some a
               | None => run p' k start s
               end
          else run p' k start s
      | EmptyString => run p' k start s
      end
  | AnyChar :: p' =>
      match s with
      | String d r =>
          if Str.lineTerminator d then None else run p' k false r
      | EmptyString => None
      end
  | NotSlashPlus :: p' =>
      (fix plus (t : string) : option A :=
         match t with
         | String d r =>
             if Str.same d "/" then None
             else match plus r with
                  | Some a => Some a
                  | None => run p' k false r
                  end
         | EmptyString => None
         end) s
  end.

(** The first match of [p] in [s], leftmost: the text before it and the
    text after it. *)
Fixpoint search (p : regex) (start : bool) (s : string)
  : option (string * string) :=
  match run p (fun _ rest => Some rest) start s with
  | Some rest => Some (EmptyString, rest)
  | None =>
      match s with
      | String c r =>
          option_map (fun '(before, rest) => (String c before, rest))
                     (search p false r)
      | EmptyString => None
      end
  end.

(** [Boolean(s.match(p))], also with the flag g: is there a match? *)
Definition test (p : regex) (s : string) : bool :=
  match search p true s with Some _ => true | None => false end.

(** [s.replace(p, new)] without the flag g: the first match replaced;
    [new] holds no [$] pattern. *)
Definition replaceFirst (p : regex) (new : string) (s : string) : string :=
  match search p true s with
  | Some (before, rest) => before ++ new ++ rest
  | None => s
  end.

End Regex.

(* ------------------------------------------------------------------ *)
(** ** Data model *)

(** A lookup by key in an object: the first entry of its enumeration. *)
Definition lookup (A : Type) (k : string) (o : list (string * A)) : option A :=
  option_map snd (find (fun e => String.eqb (fst e) k) o).

(** A value decoded by [JSON.parse].  A number keeps the text of its
    token; a string is its UTF-16 code units, which an escape can take
    out of the 8-bit range. *)
Inductive json : Type :=
| JNull
| JBool (b : bool)
| JNumber (token : string)
| JString (units : list N)
| JArray (items : list json)
| JObject (members : list (list N * json)).

(** [string | string[]], the values of headers and of a structured query;
    [Undef] is a key that holds [undefined]. *)
Inductive value : Type :=
| Undef
| One (s : string)
| Many (l : list string).

(** [req.body : any], as the specification lists it: absent, a string, or
    a structured value ([typeof body === 'object']: an object, an array, a
    buffer).  [Structured] also carries what [JSON.parse] returned. *)
Inductive body : Type :=
| Absent
| Text (s : string)
| Structured (v : json).

(** Objects live in a store and are named by their address, so that two
    names of one object see each other's writes. *)
Definition loc : Type := nat.

(** [req.query]: a query string or (the address of) a query object. *)
Inductive rawQuery : Type :=
| QueryString (s : string)
| QueryObject (l : loc).

Definition securityRequirement : Type := list (string * list string).

(** OpenAPIV3.ParameterObject, the fields the router reads.  An absent
    [style] or [explode] is [None]. *)
Record ParameterObject : Type := {
  name : string;
  in_ : string;
  style : option string;
  explode : option bool
}.

(** OpenAPIV3.OperationObject *)
Record OperationObject : Type := {
  oo_operationId : option string;
  oo_parameters : option (list ParameterObject);
  oo_security : option (list securityRequirement)
}.

(** OpenAPIV3.PathItemObject: its [parameters] and its other own
    properties in enumeration order.  The properties that are not one of
    the eight methods are never read. *)
Record PathItemObject : Type := {
  pi_parameters : option (list ParameterObject);
  pi_entries : list (string * OperationObject)
}.

(** OpenAPIV3.Document *)
Record Document : Type := {
  paths : option (list (string * PathItemObject));
  doc_security : option (list securityRequirement)
}.

(** [interface Operation]: an operation object with its path and method. *)
Record Operation : Type := {
  operationId : option string;
  path : string;
  method : string;
  parameters : list ParameterObject;
  security : list securityRequirement
}.

(** [interface Request] *)
Record Request : Type := {
  req_method : string;
  req_path : string;
  req_headers : list (string * value);
  req_query : option rawQuery;
  req_body : body
}.

(** [class OpenAPIRouter] *)
Record OpenAPIRouter : Type := {
  definition : Document;
  apiRoot : string
}.

(** The constructor: [apiRoot = opts.apiRoot || '/']. *)
Definition newRouter (d : Document) (root : option string) : OpenAPIRouter :=
  {| definition := d;
     apiRoot := match root with
                | Some (String c r) => String c r
                | _ => "/"
                end |}.

(** What a call of [matchOperation] ends in. *)
Inductive outcome : Type :=
| Returns (op : Operation)
| ReturnsUndefined
| Throws (message : string).

Definition notFound : string := "404-notFound: no route matches request".
Definition methodNotAllowed : string :=
  "405-methodNotAllowed: this method is not registered for the route".

(** The error of [new RegExp] on a pattern that is not a regular
    expression.  Its message quotes the pattern and differs between
    engines; the name stands for it. *)
Definition syntaxError : string := "SyntaxError: Invalid regular expression".

(* ------------------------------------------------------------------ *)
(** ** The router: operations, normalisation, matching *)

(** The option monad of the functions that compile a pattern. *)
Notation "x <- c ;; k" := (match c with Some x => k | None => None end)
  (at level 61, c at next level, right associativity).

(** Is there a closing brace ahead on the same line?  ([.*?] does not
    cross a line terminator.) *)
Fixpoint closes (s : string) : bool :=
  match s with
  | String c r =>
      if Str.same c "}" then true
      else if Str.lineTerminator c then false
      else closes r
  | EmptyString => false
  end.

(** [replaceFrom new inside s]: [s.replace(/\{.*?\}/g, new)], reading [s]
    from left to right; [inside] holds between the opening brace of a
    match and its closing brace, the first one that follows. *)
Fixpoint replaceFrom (new : string) (inside : bool) (s : string) : string :=
  match s with
  | String c r =>
      if inside then
        if Str.same c "}" then replaceFrom new false r
        else replaceFrom new true r
      else if Str.same c "{" && closes r then new ++ replaceFrom new true r
      else String c (replaceFrom new false r)
  | EmptyString => EmptyString
  end.

Definition replacePlaceholders (new : string) (s : string) : string :=
  replaceFrom new false s.

(** [pathPattern]: the text of the regular expression of a template. *)
Definition pathPattern (template : string) : string :=
  "^" ++ replacePlaceholders "[^/]+" template ++ "$".

(** The sort criterion of [matchOperation]: the length of the template
    without its placeholders. *)
Definition specificity (op : Operation) : nat :=
  String.length (replacePlaceholders "" (path op)).

(** [_.orderBy(l, score, 'desc')]: greater scores first, elements of one
    score in the order they had. *)
Fixpoint insertDesc (A : Type) (score : A -> nat) (x : A) (l : list A)
  : list A :=
  match l with
  | y :: l' => if score x <? score y then y :: insertDesc score x l'
               else x :: l
  | [] => [x]
  end.

Definition orderByDesc (A : Type) (score : A -> nat) (l : list A) : list A :=
  fold_right (insertDesc score) [] l.

Definition httpMethods : list string :=
  ["get"; "put"; "post"; "delete"; "options"; "head"; "patch"; "trace"].

(** [_.entries(_.pick(o, keys))]: the picked object gets its properties
    in the order of [keys], not in the order [o] has them. *)
Definition pickEntries (A : Type) (o : list (string * A)) (keys : list string)
  : list (string * A) :=
  flat_map (fun k => match lookup k o with
                     | Some v => [(k, v)]
                     | None => []
                     end) keys.

Definition orEmpty (A : Type) (o : option (list A)) : list A :=
  match o with Some l => l | None => [] end.

(** The object built for one method of one path. *)
Definition descriptor (d : Document) (p : string) (item : PathItemObject)
           (m : string) (op : OperationObject) : Operation :=
  {| operationId := oo_operationId op;
     path := p;
     method := m;
     parameters := orEmpty (oo_parameters op) ++ orEmpty (pi_parameters item);
     security := match oo_security op with
                 | Some s => s
                 | None => orEmpty (doc_security d)
                 end |}.

Definition getOperations (r : OpenAPIRouter) : list Operation :=
  let d := definition r in
  flat_map (fun '(p, item) =>
              map (fun '(m, op) => descriptor d p item m op)
                  (pickEntries (pi_entries item) httpMethods))
           (orEmpty (paths d)).

(** [_.find(this.getOperations(), { operationId })] *)
Definition getOperation (r : OpenAPIRouter) (id : string) : option Operation :=
  find (fun op => match operationId op with
                  | Some i => String.eqb i id
                  | None => false
                  end) (getOperations r).

Definition normalizedPathOf (p : string) : string :=
  let noQuery := fst (Str.cut "?" (Str.trim p)) in
  let noTrailing := Str.dropWhileEnd (fun c => Str.same c "/") noQuery in
  String "/" (Str.dropWhile (fun c => Str.same c "/") noTrailing).

Definition normalizeRequest (req : Request) : Request :=
  {| req_method := Str.toLowerCase (Str.trim (req_method req));
     req_path := normalizedPathOf (req_path req);
     req_headers := req_headers req;
     req_query := req_query req;
     req_body := req_body req |}.

(** The text of the pattern of the root. *)
Definition rootPattern (r : OpenAPIRouter) : string := "^" ++ apiRoot r ++ "/?".

(** [path.replace(new RegExp(`^${this.apiRoot}/?`), '/')].  There is no
    result when the pattern is outside the covered syntax and when the
    constructor throws; [Regex.malformed (rootPattern r)] tells the
    second case. *)
Definition normalizePath (r : OpenAPIRouter) (p : string) : option string :=
  rx <- Regex.compile ("^" ++ apiRoot r ++ "/?") ;;
  Some (Regex.replaceFirst rx "/" p).

(** One operation of the template phase: does its pattern accept [p]? *)
Definition templateMatches (p : string) (op : Operation) : option bool :=
  rx <- Regex.compile (pathPattern (path op)) ;;
  Some (Regex.test rx p).

(** [_.filter] with a predicate that may leave the model. *)
Fixpoint filterM (A : Type) (f : A -> option bool) (l : list A)
  : option (list A) :=
  match l with
  | x :: l' =>
      b <- f x ;;
      rest <- filterM f l' ;;
      Some (if b then x :: rest else rest)
  | [] => Some []
  end.

Definition fail (strict : bool) (message : string) : outcome :=
  if strict then Throws message else ReturnsUndefined.

Definition hasMethod (m : string) (op : Operation) : bool :=
  String.eqb (method op) m.

(** The predicate of the template phase builds a pattern for every
    operation of the registry: it throws as soon as one of them is
    malformed. *)
Definition someTemplateMalformed (r : OpenAPIRouter) : bool :=
  existsb (fun op => Regex.malformed (pathPattern (path op))) (getOperations r).

Definition matchOperation (r : OpenAPIRouter) (req0 : Request) (strict : bool)
  : option outcome :=
  let req := normalizeRequest req0 in
  if negb (Str.startsWith (apiRoot r) (req_path req))
  then Some (fail strict notFound)
  else if Regex.malformed (rootPattern r) then Some (Throws syntaxError)
  else
    normalizedPath <- normalizePath r (req_path req) ;;
    let exactPathMatches :=
      filter (fun op => String.eqb (path op) normalizedPath)
             (getOperations r) in
    match find (hasMethod (req_method req)) exactPathMatches with
    | Some exactMatch => Some (Returns exactMatch)
    | None =>
        if someTemplateMalformed r then Some (Throws syntaxError)
        else
          templatePathMatches <-
            filterM (templateMatches normalizedPath) (getOperations r) ;;
          match templatePathMatches with
          | [] => Some (fail strict notFound)
          | _ =>
              match find (hasMethod (req_method req))
                         (orderByDesc specificity templatePathMatches) with
              | Some op => Some (Returns op)
              | None => Some (fail strict methodNotAllowed)
              end
          end
    end.

(* ------------------------------------------------------------------ *)
(** ** Vocabulary of the statements about the registry *)

(** Does the object [o] have the key [k]? *)
Definition declares (A : Type) (o : list (string * A)) (k : string) : bool :=
  existsb (fun e => String.eqb (fst e) k) o.

(** The (path template, method) pair of a descriptor. *)
Definition key (op : Operation) : string * string := (path op, method op).

(** The contract document as a tree of JS objects: no object has a key
    twice. *)
Definition wellFormed (d : Document) : Prop :=
  NoDup (map fst (orEmpty (paths d))) /\
  forall p item, In (p, item) (orEmpty (paths d)) ->
                 NoDup (map fst (pi_entries item)).

(** The listing the specification describes: every declared method of
    every path, in document iteration order. *)
Definition documentOrder (r : OpenAPIRouter) : list Operation :=
  let d := definition r in
  flat_map (fun '(p, item) =>
              map (fun '(m, op) => descriptor d p item m op)
                  (filter (fun e => existsb (String.eqb (fst e)) httpMethods)
                          (pi_entries item)))
           (orEmpty (paths d)).


(* ------------------------------------------------------------------ *)
(** ** Sample documents *)

Module Sample.

Definition plainOp : OperationObject :=
  {| oo_operationId := None; oo_parameters := None; oo_security := None |}.

Definition queryParam (n : string) (st : option string) (ex : option bool)
  : ParameterObject :=
  {| name := n; in_ := "query"; style := st; explode := ex |}.

Definition request (m p : string) : Request :=
  {| req_method := m; req_path := p; req_headers := [];
     req_query := None; req_body := Absent |}.

(** A path item that declares [post] before [get]. *)
Definition postThenGet : Document :=
  {| paths := Some [("/pets",
                     {| pi_parameters := None;
                        pi_entries := [("post", plainOp); ("get", plainOp)] |})];
     doc_security := None |}.

(** An operation that overrides a shared parameter and the default
    security. *)
Definition overriding : Document :=
  {| paths :=
       Some [("/pets",
              {| pi_parameters :=
                   Some [queryParam "tags" None None; queryParam "limit" None None];
                 pi_entries :=
                   [("get",
                     {| oo_operationId := Some "listPets";
                        oo_parameters :=
                          Some [queryParam "tags" (Some "pipeDelimited") (Some false)];
                        oo_security := Some [] |});
                    ("post", plainOp)] |})];
     doc_security := Some [[("apiKey", [])]] |}.

(** The two templates of the specification's example, and a literal
    path that the first template also accepts. *)
Definition pets : Document :=
  {| paths :=
       Some [("/pets/{id}",
              {| pi_parameters := None;
                 pi_entries := [("get", plainOp); ("delete", plainOp)] |});
             ("/pets/{id}/photos",
              {| pi_parameters := None; pi_entries := [("get", plainOp)] |});
             ("/pets/mine",
              {| pi_parameters := None; pi_entries := [("get", plainOp)] |})];
     doc_security := None |}.

Definition petsMine : Operation :=
  {| operationId := None; path := "/pets/mine"; method := "get";
     parameters := []; security := [] |}.

Definition petPhotos : Operation :=
  {| operationId := None; path := "/pets/{id}/photos"; method := "get";
     parameters := []; security := [] |}.

Definition petById (m : string) : Operation :=
  {| operationId := None; path := "/pets/{id}"; method := m;
     parameters := []; security := [] |}.

(** Two templates that accept the same paths; the more specific one
    comes second. *)
Definition overlap : Document :=
  {| paths :=
       Some [("/{kind}/{id}",
              {| pi_parameters := None; pi_entries := [("get", plainOp)] |});
             ("/pets/{id}",
              {| pi_parameters := None; pi_entries := [("get", plainOp)] |})];
     doc_security := None |}.

(** A document served under the root [/api]. *)
Definition ary : Document :=
  {| paths := Some [("/ary/pets",
                     {| pi_parameters := None;
                        pi_entries := [("get", plainOp)] |})];
     doc_security := None |}.

Definition aryPets : Operation :=
  {| operationId := None; path := "/ary/pets"; method := "get";
     parameters := []; security := [] |}.

(** Stand-ins for the two libraries outside the model: no cookie, and a
    [bath] that takes every template and finds no parameter. *)
Definition noCookies (text : string) : list (string * string) := [].
Definition noParams (template : string)
  : string + (string -> option (list (string * string))) :=
  inr (fun _ => None).

(** An operation with the given parameters. *)
Definition listing (ps : list ParameterObject) : Operation :=
  {| operationId := None; path := "/pets"; method := "get";
     parameters := ps; security := [] |}.

(** A request with a structured query, at address 0 of the store. *)
Definition structured (b : body) : Request :=
  {| req_method := "GET"; req_path := "/pets"; req_headers := [];
     req_query := Some (QueryObject 0); req_body := b |}.

Definition withBody (p : string) (b : body) : Request :=
  {| req_method := "POST"; req_path := p; req_headers := [];
     req_query := None; req_body := b |}.

Definition doubleQuote : string := String "034" "".

(** The text of the object with the member x equal to 1. *)
Definition jsonText : string :=
  "{" ++ doubleQuote ++ "x" ++ doubleQuote ++ ":1}".

(** An operation and its path item both declare [tags] with
    [explode: false]. *)
Definition shadowing : Document :=
  {| paths :=
       Some [("/pets",
              {| pi_parameters := Some [queryParam "tags" None (Some false)];
                 pi_entries :=
                   [("get",
                     {| oo_operationId := None;
                        oo_parameters :=
                          Some [queryParam "tags" (Some "pipeDelimited") (Some false)];
                        oo_security := None |})] |})];
     doc_security := None |}.

(** The descriptor of [get /pets] in [shadowing], as the registry
    builds it. *)
Definition shadowed : Operation :=
  {| operationId := None; path := "/pets"; method := "get";
     parameters := [queryParam "tags" (Some "pipeDelimited") (Some false);
                    queryParam "tags" None (Some false)];
     security := [] |}.

(** A path item declares [tags] with [explode: false]; its operation
    declares [tags] again, with [explode: true]. *)
Definition reexploding : Document :=
  {| paths :=
       Some [("/pets",
              {| pi_parameters := Some [queryParam "tags" None (Some false)];
                 pi_entries :=
                   [("get",
                     {| oo_operationId := None;
                        oo_parameters := Some [queryParam "tags" None (Some true)];
                        oo_security := None |})] |})];
     doc_security := None |}.

(** The descriptor of [get /pets] in [reexploding], as the registry
    builds it. *)
Definition reexploded : Operation :=
  {| operationId := None; path := "/pets"; method := "get";
     parameters := [queryParam "tags" None (Some true);
                    queryParam "tags" None (Some false)];
     security := [] |}.

(** A path whose text is not a fixed point of its own pattern: the
    dollar sign is the end-of-input assertion. *)
Definition odata : Document :=
  {| paths := Some [("/$metadata",
                     {| pi_parameters := None;
                        pi_entries := [("get", plainOp)] |})];
     doc_security := None |}.

Definition metadata : Operation :=
  {| operationId := None; path := "/$metadata"; method := "get";
     parameters := []; security := [] |}.

(** A template whose pattern is not a regular expression. *)
Definition wildcard : Document :=
  {| paths := Some [("/pets",
                     {| pi_parameters := None;
                        pi_entries := [("get", plainOp)] |});
                    ("/files/**",
                     {| pi_parameters := None;
                        pi_entries := [("get", plainOp)] |})];
     doc_security := None |}.

(** The descriptor of [get /pets] in [overriding]. *)
Definition listPets : Operation :=
  {| operationId := Some "listPets";
     path := "/pets";
     method := "get";
     parameters := [queryParam "tags" (Some "pipeDelimited") (Some false);
                    queryParam "tags" None None;
                    queryParam "limit" None None];
     security := [] |}.

End Sample.

(* ------------------------------------------------------------------ *)
(** ** Vocabulary of the statements about patterns *)

(** A character that a pattern reads as itself, or the dot. *)
Definition plainChar (c : ascii) : bool :=
  negb (Regex.special c) || Str.same c ".".

(** A string without regular-expression syntax other than dots. *)
Definition plain (s : string) : bool := Str.allb plainChar s.

(** The atom a plain character compiles to. *)
Definition atomOf (c : ascii) : Regex.atom :=
  if Str.same c "." then Regex.AnyChar else Regex.Lit c.

Fixpoint atomsOf (s : string) : Regex.regex :=
  match s with
  | String c r => atomOf c :: atomsOf r
  | EmptyString => []
  end.

(** [s] without its first character when that is a slash. *)
Definition dropOneSlash (s : string) : string :=
  match s with
  | String "/" r => r
  | _ => s
  end.

(** Is the pattern text [s] inside the covered syntax? *)
Definition compiles (s : string) : bool :=
  match Regex.compile s with Some _ => true | None => false end.

(** A router all of whose patterns (of the root and of every template)
    are inside the covered syntax. *)
Definition covered (r : OpenAPIRouter) : bool :=
  compiles ("^" ++ apiRoot r ++ "/?") &&
  forallb (fun op => compiles (pathPattern (path op))) (getOperations r).

(** [op]'s template accepts the comparison path [p]. *)
Definition accepts (p : string) (op : Operation) : bool :=
  match templateMatches p op with Some b => b | None => false end.

(** The exact phase and the template phase on the comparison path [np]
    and the normalized method [m], when every pattern compiles. *)
Definition phases (r : OpenAPIRouter) (np m : string) (strict : bool) : outcome :=
  match find (hasMethod m)
             (filter (fun op => String.eqb (path op) np) (getOperations r)) with
  | Some exactMatch => Returns exactMatch
  | None =>
      match filter (accepts np) (getOperations r) with
      | [] => fail strict notFound
      | matches =>
          match find (hasMethod m) (orderByDesc specificity matches) with
          | Some op => Returns op
          | None => fail strict methodNotAllowed
          end
      end
  end.

(* ------------------------------------------------------------------ *)
(** ** Vocabulary of the statements about the ordering *)

(** Greater scores first. *)
Definition descending (A : Type) (score : A -> nat) (l : list A) : Prop :=
  forall l1 y l2 z, l = (l1 ++ y :: l2)%list -> In z l2 -> score z <= score y.

(** [x] is the element of [l] that a search for [p] meets first once [l]
    is ordered by descending score, ties in their original order: [x]
    satisfies [p], nothing that satisfies [p] has a greater score, and
    nothing that satisfies [p] with the same score stands before [x] in
    [l]. *)
Definition firstBest (A : Type) (score : A -> nat) (p : A -> bool)
           (l : list A) (x : A) : Prop :=
  exists l1 l2,
    l = (l1 ++ x :: l2)%list /\ p x = true /\
    (forall y, In y l1 -> p y = true -> score y < score x) /\
    (forall y, In y l2 -> p y = true -> score y <= score x).

(** What non-strict mode makes of the outcome of strict mode. *)
Definition lenient (o : outcome) : outcome :=
  match o with
  | Throws _ => ReturnsUndefined
  | _ => o
  end.

(* ------------------------------------------------------------------ *)
(** ** [JSON.parse] *)

Module Json.

Inductive token : Type :=
| TLBrace | TRBrace | TLBracket | TRBracket | TColon | TComma
| TTrue | TFalse | TNull
| TNum (text : string)
| TStr (units : list N).

(** Where the reader of a number stands: after the minus sign, after a
    leading zero, in the integer digits, after the point, in the
    fraction digits, after the exponent letter, after the exponent
    sign, in the exponent digits. *)
Inductive numState : Type :=
| NMinus | NZero | NInt | NDot | NFrac | NExp | NExpSign | NExpDigits.

Definition numComplete (st : numState) : bool :=
  match st with
  | NZero | NInt | NFrac | NExpDigits => true
  | _ => false
  end.

Definition digit (c : ascii) : bool :=
  let n := nat_of_ascii c in (48 <=? n) && (n <=? 57).

Definition hexValue (c : ascii) : option N :=
  let n := nat_of_ascii c in
  if (48 <=? n) && (n <=? 57) then Some (N.of_nat (n - 48))
  else if (65 <=? n) && (n <=? 70) then Some (N.of_nat (n - 55))
  else if (97 <=? n) && (n <=? 102) then Some (N.of_nat (n - 87))
  else None.

Definition numNext (st : numState) (c : ascii) : option numState :=
  let e := Str.same c "e" || Str.same c "E" in
  match st with
  | NMinus => if Str.same c "0" then Some NZero
              else if digit c then Some NInt else None
  | NZero => if Str.same c "." then Some NDot
             else if e then Some NExp else None
  | NInt => if digit c then Some NInt
            else if Str.same c "." then Some NDot
            else if e then Some NExp else None
  | NDot => if digit c then Some NFrac else None
  | NFrac => if digit c then Some NFrac
             else if e then Some NExp else None
  | NExp => if digit c then Some NExpDigits
            else if Str.same c "+" || Str.same c "-" then Some NExpSign
            else None
  | NExpSign | NExpDigits => if digit c then Some NExpDigits else None
  end.

Definition whiteSpace (c : ascii) : bool :=
  let n := nat_of_ascii c in
  (n =? 32) || (n =? 9) || (n =? 10) || (n =? 13).

Definition punctuation (c : ascii) : option token :=
  if Str.same c "{" then Some TLBrace
  else if Str.same c "}" then Some TRBrace
  else if Str.same c "[" then Some TLBracket
  else if Str.same c "]" then Some TRBracket
  else if Str.same c ":" then Some TColon
  else if Str.same c "," then Some TComma
  else None.

(** The character an escape letter stands for. *)
Definition escaped (c : ascii) : option N :=
  let n := nat_of_ascii c in
  if (n =? 34) || (n =? 92) || (n =? 47) then Some (N.of_nat n)
  else if Str.same c "b" then Some 8%N
  else if Str.same c "f" then Some 12%N
  else if Str.same c "n" then Some 10%N
  else if Str.same c "r" then Some 13%N
  else if Str.same c "t" then Some 9%N
  else None.

(** What the reader is in the middle of. *)
Inductive lexMode : Type :=
| Between
| InString (units : list N)                     (* reversed *)
| InEscape (units : list N)
| InUnicode (units : list N) (digits : list N)  (* reversed *)
| InNumber (text : string) (st : numState)      (* reversed *)
| InWord (expected : string) (t : token).

Definition revString (s : string) : string :=
  string_of_list_ascii (rev (list_ascii_of_string s)).

(** The tokens of a text, or [None] for a text that is not made of JSON
    tokens.  A number ends at white space, at a comma or at a closing
    bracket; anything else right after it is a syntax error anyway. *)
Fixpoint lex (mode : lexMode) (s : string) : option (list token) :=
  match s with
  | EmptyString =>
      match mode with
      | Between => Some []
      | InNumber text st =>
          if numComplete st then Some [TNum (revString text)] else None
      | _ => None
      end
  | String c r =>
      let emit (t : token) (m : lexMode) := option_map (cons t) (lex m r) in
      match mode with
      | Between =>
          if whiteSpace c then lex Between r
          else match punctuation c with
               | Some t => emit t Between
               | None =>
                   if (nat_of_ascii c =? 34) then lex (InString []) r
                   else if Str.same c "-" then lex (InNumber "-" NMinus) r
                   else if Str.same c "0" then lex (InNumber "0" NZero) r
                   else if digit c then lex (InNumber (String c "") NInt) r
                   else if Str.same c "t" then lex (InWord "rue" TTrue) r
                   else if Str.same c "f" then lex (InWord "alse" TFalse) r
                   else if Str.same c "n" then lex (InWord "ull" TNull) r
                   else None
               end
      | InString units =>
          let n := nat_of_ascii c in
          if n =? 34 then emit (TStr (rev units)) Between
          else if n =? 92 then lex (InEscape units) r
          else if n <? 32 then None
          else lex (InString (N.of_nat n :: units)) r
      | InEscape units =>
          if Str.same c "u" then lex (InUnicode units []) r
          else match escaped c with
               | Some u => lex (InString (u :: units)) r
               | None => None
               end
      | InUnicode units digits =>
          match hexValue c with
          | Some h =>
              match digits with
              | [d3; d2; d1] =>
                  lex (InString ((((d1 * 16 + d2) * 16 + d3) * 16 + h)%N :: units)) r
              | _ => lex (InUnicode units (h :: digits)) r
              end
          | None => None
          end
      | InNumber text st =>
          match numNext st c with
          | Some st' => lex (InNumber (String c text) st') r
          | None =>
              if negb (numComplete st) then None
              else if whiteSpace c then emit (TNum (revString text)) Between
              else match punctuation c with
                   | Some TComma =>
                       option_map (fun ts => TNum (revString text) :: TComma :: ts)
                                  (lex Between r)
                   | Some TRBracket =>
                       option_map (fun ts => TNum (revString text) :: TRBracket :: ts)
                                  (lex Between r)
                   | Some TRBrace =>
                       option_map (fun ts => TNum (revString text) :: TRBrace :: ts)
                                  (lex Between r)
                   | _ => None
                   end
          end
      | InWord expected t =>
          match expected with
          | String e EmptyString =>
              if Str.same c e then emit t Between else None
          | String e rest =>
              if Str.same c e then lex (InWord rest t) r else None
          | EmptyString => None
          end
      end
  end.

(** An array or an object that is still open: what it holds so far
    (reversed), and for an object the key that waits for its value. *)
Inductive frame : Type :=
| FArray (items : list json)
| FObject (members : list (list N * json)) (key : list N).

(** What the parser expects next. *)
Inductive expect : Type :=
| Value                                  (* a value *)
| ValueOrClose                           (* right after an opening bracket *)
| KeyOrClose (members : list (list N * json))  (* right after an opening brace *)
| Key (members : list (list N * json))   (* after a comma in an object *)
| Colon (members : list (list N * json)) (key : list N)
| After (v : json).                      (* a value is complete *)

Definition sameUnits (a b : list N) : bool :=
  if list_eq_dec N.eq_dec a b then true else false.

(** [o[key] = v]: a key the object has keeps its place. *)
Fixpoint setMember (key : list N) (v : json) (o : list (list N * json))
  : list (list N * json) :=
  match o with
  | (k, w) :: o' =>
      if sameUnits k key then (k, v) :: o' else (k, w) :: setMember key v o'
  | [] => [(key, v)]
  end.

(** The members in the order of the text become the object. *)
Definition object (members : list (list N * json)) : json :=
  JObject (fold_left (fun o '(k, v) => setMember k v o) (rev members) []).

Definition scalar (t : token) : option json :=
  match t with
  | TTrue => Some (JBool true)
  | TFalse => Some (JBool false)
  | TNull => Some JNull
  | TNum text => Some (JNumber text)
  | TStr units => Some (JString units)
  | _ => None
  end.

(** One token read in the state (open containers, expectation). *)
Definition step (stack : list frame) (e : expect) (t : token)
  : option (list frame * expect) :=
  let value :=
    match t with
    | TLBracket => Some (FArray [] :: stack, ValueOrClose)
    | TLBrace => Some (stack, KeyOrClose [])
    | _ => option_map (fun v => (stack, After v)) (scalar t)
    end in
  match e with
  | Value => value
  | ValueOrClose =>
      match t, stack with
      | TRBracket, FArray _ :: stack' => Some (stack', After (JArray []))
      | _, _ => value
      end
  | KeyOrClose members =>
      match t with
      | TRBrace => Some (stack, After (object members))
      | TStr k => Some (stack, Colon members k)
      | _ => None
      end
  | Key members =>
      match t with
      | TStr k => Some (stack, Colon members k)
      | _ => None
      end
  | Colon members k =>
      match t with
      | TColon => Some (FObject members k :: stack, Value)
      | _ => None
      end
  | After v =>
      match stack, t with
      | FArray items :: stack', TComma =>
          Some (FArray (v :: items) :: stack', Value)
      | FArray items :: stack', TRBracket =>
          Some (stack', After (JArray (rev (v :: items))))
      | FObject members k :: stack', TComma =>
          Some (stack', Key ((k, v) :: members))
      | FObject members k :: stack', TRBrace =>
          Some (stack', After (object ((k, v) :: members)))
      | _, _ => None
      end
  end.

Fixpoint run (stack : list frame) (e : expect) (ts : list token)
  : option json :=
  match ts with
  | t :: ts' =>
      match step stack e t with
      | Some (stack', e') => run stack' e' ts'
      | None => None
      end
  | [] =>
      match stack, e with
      | [], After v => Some v
      | _, _ => None
      end
  end.

(** [JSON.parse(text)]; [None] where it throws a SyntaxError. *)
Definition parse (text : string) : option json :=
  match lex Between text with
  | Some ts => run [] Value ts
  | None => None
  end.

End Json.

(* ------------------------------------------------------------------ *)
(** ** [qs.parse] on flat keys

    The library's parser (releases 6.9.2 to 6.13, default options, and
    with [comma: true]) on the query strings whose keys hold no bracket:
    those decode to a flat object.  [None] is a query string outside this
    part: a bracketed key, which builds nested objects and arrays, or an
    escape above [%7F], which decodes through UTF-8.  The enumeration
    order of keys that are canonical array indices is not modelled. *)

Module Qs.

Inductive decoded : Type :=
| Decoded (s : string)
| Malformed           (* decodeURIComponent throws URIError *)
| Unrepresentable.    (* an escape above %7F *)

(** [decodeURIComponent] *)
Fixpoint unescape (s : string) : decoded :=
  match s with
  | String c r =>
      if Str.same c "%" then
        match r with
        | String a (String b r') =>
            match Json.hexValue a, Json.hexValue b with
            | Some h, Some l =>
                match unescape r' with
                | Decoded t =>
                    if (h <? 8)%N
                    then Decoded (String (ascii_of_N (h * 16 + l)) t)
                    else Unrepresentable
                | other => other
                end
            | _, _ => Malformed
            end
        | _ => Malformed
        end
      else match unescape r with
           | Decoded t => Decoded (String c t)
           | other => other
           end
  | EmptyString => Decoded EmptyString
  end.

(** [utils.decode]: plus signs become spaces, then the escapes are
    decoded; a malformed escape leaves the text as it is. *)
Definition decode (s : string) : option string :=
  let withoutPlus := Str.replaceChar "+" " " s in
  match unescape withoutPlus with
  | Decoded t => Some t
  | Malformed => Some withoutPlus
  | Unrepresentable => None
  end.

Fixpoint decodeAll (l : list string) : option (list string) :=
  match l with
  | s :: l' =>
      t <- decode s ;;
      ts <- decodeAll l' ;;
      Some (t :: ts)
  | [] => Some []
  end.

Definition contains (c : ascii) (s : string) : bool :=
  negb (Str.allb (fun d => negb (Str.same d c)) s).

(** Does [s] hold the characters [a b] in a row? *)
Fixpoint containsPair (a b : ascii) (s : string) : bool :=
  match s with
  | String c r =>
      match r with
      | String d _ => (Str.same c a && Str.same d b) || containsPair a b r
      | EmptyString => false
      end
  | EmptyString => false
  end.

(** [parseArrayValue] and the decoding of what it returns. *)
Definition parseValue (comma : bool) (raw : string) : option value :=
  if comma && contains "," raw
  then option_map Many (decodeAll (Str.split "," raw))
  else option_map One (decode raw).

Definition asList (v : value) : list string :=
  match v with
  | Undef => []
  | One s => [s]
  | Many l => l
  end.

(** [utils.combine]: [[].concat(a, b)] *)
Definition combine (a b : value) : value := Many (asList a ++ asList b).

Definition object : Type := list (string * value).

(** [o[k] = v]: a key the object has keeps its place. *)
Fixpoint set (k : string) (v : value) (o : object) : object :=
  match o with
  | (k', w) :: o' =>
      if String.eqb k' k then (k', v) :: o' else (k', w) :: set k v o'
  | [] => [(k, v)]
  end.

(** One [key=value] part added to the object of [parseValues]. *)
Definition addPart (comma : bool) (part : string) (o : object)
  : option object :=
  if containsPair "]" "=" part then None
  else
    let '(rawKey, rawValue) := Str.cut "=" part in
    k <- decode rawKey ;;
    if contains "[" k then None
    else
      v <- match rawValue with
           | Some raw => parseValue comma raw
           | None => Some (One "")
           end ;;
      Some (match lookup k o with
            | Some old => set k (combine old v) o
            | None => set k v o
            end).

Fixpoint parseValues (comma : bool) (parts : list string) (o : object)
  : option object :=
  match parts with
  | part :: parts' =>
      o' <- addPart comma part o ;;
      parseValues comma parts' o'
  | [] => Some o
  end.

(** The own property names of [Object.prototype], which [parseKeys]
    refuses as keys. *)
Definition prototypeKeys : list string :=
  ["constructor"; "__defineGetter__"; "__defineSetter__"; "hasOwnProperty";
   "__lookupGetter__"; "__lookupSetter__"; "isPrototypeOf";
   "propertyIsEnumerable"; "toString"; "valueOf"; "__proto__";
   "toLocaleString"].

Definition keptKey (k : string) : bool :=
  negb (String.eqb k "") && negb (existsb (String.eqb k) prototypeKeys).

Definition parameterLimit : nat := 1000.

(** [qs.parse(str, { comma })] *)
Definition parse (comma : bool) (str : option string) : option object :=
  match str with
  | None | Some EmptyString => Some []
  | Some s =>
      o <- parseValues comma (firstn parameterLimit (Str.split "&" s)) [] ;;
      Some (filter (fun e => keptKey (fst e)) o)
  end.

End Qs.

(* ------------------------------------------------------------------ *)
(** ** [parseRequest] *)

(** The query objects that exist, by address.  A query object of the
    caller is in the store before the call; [qs.parse] adds a new one. *)
Definition store : Type := list Qs.object.

Definition read (st : store) (l : loc) : Qs.object := nth l st [].

Fixpoint write (st : store) (l : loc) (o : Qs.object) : store :=
  match st, l with
  | _ :: st', 0 => o :: st'
  | x :: st', S l' => x :: write st' l' o
  | [], _ => []
  end.

Definition alloc (st : store) (o : Qs.object) : loc * store :=
  (List.length st, (st ++ [o])%list).

(** [interface ParsedRequest] *)
Record ParsedRequest : Type := {
  p_method : string;
  p_path : string;
  p_body : body;
  params : list (string * string);
  headers : list (string * value);
  query : loc;
  cookies : list (string * string);
  requestBody : body
}.

(** What a call of [parseRequest] ends in. *)
Inductive parsed : Type :=
| Parsed (result : ParsedRequest)
| Raises (error : string).

Definition notAFunction : string :=
  "TypeError: query[p.name].split is not a function".

(** The truth value of a query value in a condition. *)
Definition truthy (v : option value) : bool :=
  match v with
  | Some (One EmptyString) | Some Undef | None => false
  | Some (One _) | Some (Many _) => true
  end.

(** The body and [requestBody]. *)
Definition decodeBody (b : body) : body :=
  match b with
  | Text (String c s) =>
      match Json.parse (String c s) with
      | Some v => Structured v
      | None => b
      end
  | _ => b
  end.

(** [_.mapKeys(headers, (val, header) => header.toLowerCase())] *)
Definition lowerCaseKeys (h : list (string * value)) : list (string * value) :=
  fold_left (fun o '(k, v) => Qs.set (Str.toLowerCase k) v o) h [].

(** [a.join(sep)] *)
Fixpoint join (sep : string) (l : list string) : string :=
  match l with
  | [] => ""
  | [s] => s
  | s :: l' => s ++ sep ++ join sep l'
  end.

(** [_.flatten([cookieHeader]).join('; ')] *)
Definition cookieText (header : option value) : string :=
  match header with
  | Some (One s) => s
  | Some (Many l) => join "; " l
  | Some Undef | None => ""
  end.

(** [req.path.split('?')[1]] *)
Definition queryStringOf (p : string) : option string :=
  nth_error (Str.split "?" p) 1.

Definition isObject (q : option rawQuery) : bool :=
  match q with Some (QueryObject _) => true | _ => false end.

Definition hasStyle (p : ParameterObject) (s : string) : bool :=
  match style p with Some t => String.eqb t s | None => false end.

(** [p.explode === false && p.in === 'query'] *)
Definition unexplodedQuery (p : ParameterObject) : bool :=
  match explode p with Some false => String.eqb (in_ p) "query" | _ => false end.

(** The query string with the delimiter of the style turned into commas. *)
Definition commaQueryString (p : ParameterObject) (queryString : string)
  : string :=
  let s1 := if hasStyle p "spaceDelimited"
            then Str.replace3 "%" "2" "0" "," (Str.replaceChar " " "," queryString)
            else queryString in
  if hasStyle p "pipeDelimited"
  then Str.replace3 "%" "7" "C" "," (Str.replaceChar "|" "," s1)
  else s1.

(** The body of the loop [for (const queryParam in query)]. *)
Definition redecode (parameters : list ParameterObject) (queryString : string)
           (queryParam : string) (o : Qs.object) : option Qs.object :=
  if truthy (lookup queryParam o) then
    match find (fun p => String.eqb (name p) queryParam
                         && String.eqb (in_ p) "query") parameters with
    | Some parameter =>
        match explode parameter with
        | Some false =>
            commaParsed <-
              Qs.parse true (Some (commaQueryString parameter queryString)) ;;
            Some (Qs.set queryParam
                         (match lookup queryParam commaParsed with
                          | Some v => v
                          | None => Undef
                          end) o)
        | _ => Some o
        end
    | None => Some o
    end
  else Some o.

Fixpoint redecodeAll (parameters : list ParameterObject) (queryString : string)
         (keys : list string) (o : Qs.object) : option Qs.object :=
  match keys with
  | k :: keys' =>
      o' <- redecode parameters queryString k o ;;
      redecodeAll parameters queryString keys' o'
  | [] => Some o
  end.

Definition isString (v : option value) : bool :=
  match v with Some (One _) => true | _ => false end.

Definition delimiter (p : ParameterObject) : ascii :=
  if hasStyle p "spaceDelimited" then " "%char
  else if hasStyle p "pipeDelimited" then "|"%char
  else ","%char.

(** The [forEach] of the second pass: [query[p.name].split(d)] is a call
    of [undefined] when the value is no longer a string.  The result is
    the object as the loop leaves it, and the error if it threw. *)
Fixpoint splitAll (selected : list ParameterObject) (o : Qs.object)
  : Qs.object * option string :=
  match selected with
  | p :: selected' =>
      match lookup (name p) o with
      | Some (One s) =>
          splitAll selected'
                   (Qs.set (name p) (Many (Str.split (delimiter p) s)) o)
      | _ => (o, Some notAFunction)
      end
  | [] => (o, None)
  end.

(** The second pass: the two [filter]s, then the [forEach]. *)
Definition splitUnexploded (parameters : list ParameterObject) (o : Qs.object)
  : Qs.object * option string :=
  splitAll (filter (fun p => isString (lookup (name p) o))
                   (filter unexplodedQuery parameters)) o.

Section ParseRequest.

(** The two libraries outside the model: [cookie.parse(text)], and
    [bath(template)], which throws for a template it cannot compile
    ([inl], with the error) and otherwise gives the function
    [.params(path)]. *)
Variable cookieParse : string -> list (string * string).
Variable bath : string -> string + (string -> option (list (string * string))).

Definition parseRequest (r : OpenAPIRouter) (st : store) (req0 : Request)
           (operation : option Operation) : option (parsed * store) :=
  let requestBody := decodeBody (req_body req0) in
  let headers := lowerCaseKeys (req_headers req0) in
  let cookies := cookieParse (cookieText (lookup "cookie" headers)) in
  let queryString := queryStringOf (req_path req0) in
  allocated <- match req_query req0 with
               | Some (QueryObject l) => Some (l, st)
               | _ => option_map (alloc st) (Qs.parse false queryString)
               end ;;
  let query := fst allocated in
  let st1 := snd allocated in
  let req := normalizeRequest req0 in
  let result (params : list (string * string)) :=
    Parsed {| p_method := req_method req;
              p_path := req_path req;
              p_body := req_body req;
              params := params;
              headers := headers;
              query := query;
              cookies := cookies;
              requestBody := requestBody |} in
  match operation with
  | None => Some (result [], st1)
  | Some op =>
      if Regex.malformed (rootPattern r) then Some (Raises syntaxError, st1)
      else
        normalizedPath <- normalizePath r (req_path req) ;;
        match bath (path op) with
        | inl error => Some (Raises error, st1)
        | inr paramsOf =>
            let params := match paramsOf normalizedPath with
                          | Some ps => ps
                          | None => []
                          end in
            o1 <- match queryString with
                  | Some (String c s) =>
                      if isObject (req_query req0) then Some (read st1 query)
                      else redecodeAll (parameters op) (String c s)
                                       (map fst (read st1 query))
                                       (read st1 query)
                  | _ => Some (read st1 query)
                  end ;;
            match splitUnexploded (parameters op) o1 with
            | (o2, None) => Some (result params, write st1 query o2)
            | (o2, Some error) => Some (Raises error, write st1 query o2)
            end
        end
  end.

End ParseRequest.

(* ------------------------------------------------------------------ *)
(** ** Vocabulary of the statements about [parseRequest] *)

(** The parameter [p] has the name [k]. *)
Definition named (k : string) (p : ParameterObject) : bool :=
  String.eqb (name p) k.

(** What the second pass makes of the value [v] of the key [k]. *)
Definition splitValue (parameters : list ParameterObject) (k : string)
           (v : option value) : option value :=
  match v with
  | Some (One s) =>
      match find (fun p => unexplodedQuery p && named k p) parameters with
      | Some p => Some (Many (Str.split (delimiter p) s))
      | None => v
      end
  | _ => v
  end.


(** The request [req] with another body. *)
Definition setBody (req : Request) (b : body) : Request :=
  {| req_method := req_method req;
     req_path := req_path req;
     req_headers := req_headers req;
     req_query := req_query req;
     req_body := b |}.

(** [requestBody] as the specification describes it. *)
Definition bestEffortJson (b : body) : body :=
  match b with
  | Text s =>
      match Json.parse s with
      | Some v => Structured v
      | None => Text s
      end
  | _ => b
  end.

(** A [bath] that takes every template: [paramsOf template] is then the
    function [.params]. *)
Definition accepting
           (paramsOf : string -> string -> option (list (string * string)))
  : string -> string + (string -> option (list (string * string))) :=
  fun template => inr (paramsOf template).

(** The merge as the specification words it: where an operation-level
    and a path-level parameter have one name, the operation-level entry
    takes precedence, so that a name is declared once. *)
Definition mergedByName (own shared : list ParameterObject)
  : list ParameterObject :=
  (own ++ filter (fun q => negb (existsb (fun p => String.eqb (name p) (name q)) own))
                 shared)%list.

(* ------------------------------------------------------------------ *)
(** ** Vocabulary of the further statements *)

(** The request [req] with another path. *)
Definition setPath (req : Request) (p : string) : Request :=
  {| req_method := req_method req;
     req_path := p;
     req_headers := req_headers req;
     req_query := req_query req;
     req_body := req_body req |}.

(** The last code unit of a string. *)
Fixpoint lastChar (s : string) : option ascii :=
  match s with
  | EmptyString => None
  | String c EmptyString => Some c
  | String _ r => lastChar r
  end.

Definition isSlash (c : ascii) : bool := Str.same c "/".

Definition notQuestionMark (c : ascii) : bool := negb (Str.same c "?").

(** The last code unit of [s], if there is one, does not satisfy [f]. *)
Definition endsOutside (f : ascii -> bool) (s : string) : bool :=
  match lastChar s with
  | Some c => negb (f c)
  | None => true
  end.

(** A path that [normalizeRequest] keeps: one leading slash, no question
    mark, and after the slash nothing that ends in a slash or in white
    space. *)
Definition canonicalPath (p : string) : bool :=
  match p with
  | String c rest =>
      isSlash c && negb (Str.startsWith "/" rest)
      && Str.allb notQuestionMark rest
      && endsOutside isSlash rest && endsOutside Str.whiteSpace rest
  | EmptyString => false
  end.

(** A string without any regular-expression syntax, dots included. *)
Definition literal (s : string) : bool :=
  Str.allb (fun c => negb (Regex.special c)) s.

(** The parameters the second pass of [parseRequest] goes through: the
    query parameters with [explode: false] whose value in [o] is a
    string. *)
Definition selected (parameters : list ParameterObject) (o : Qs.object)
  : list ParameterObject :=
  filter (fun p => isString (lookup (name p) o))
         (filter unexplodedQuery parameters).

(** A request that sends the header [Accept] twice, in two cases. *)
Definition acceptTwice : Request :=
  {| req_method := "GET"; req_path := "/pets";
     req_headers := [("Accept", One "a"); ("X-Id", One "1"); ("ACCEPT", One "b")];
     req_query := None; req_body := Absent |}.

(** A template read as the specification describes it: ordinary
    characters and placeholders.  A placeholder runs from an opening
    brace to the first closing brace after it on the same line. *)
Inductive piece : Type :=
| Ch (c : ascii)
| Hole.

Fixpoint piecesFrom (inside : bool) (s : string) : list piece :=
  match s with
  | String c r =>
      if inside then
        if Str.same c "}" then piecesFrom false r else piecesFrom true r
      else if Str.same c "{" && closes r then Hole :: piecesFrom true r
      else Ch c :: piecesFrom false r
  | EmptyString => []
  end.

Definition pieces (template : string) : list piece := piecesFrom false template.

(** The text of a template fits a path: each ordinary character stands
    for itself, each placeholder for one or more characters other than a
    slash, and nothing of the path is left over. *)
Inductive Fits : list piece -> string -> Prop :=
| Fits_end : Fits [] EmptyString
| Fits_ch (c : ascii) (ps : list piece) (s : string) :
    Fits ps s -> Fits (Ch c :: ps) (String c s)
| Fits_hole (ps : list piece) (a b : string) :
    a <> EmptyString ->
    Str.allb (fun c => negb (isSlash c)) a = true ->
    Fits ps b -> Fits (Hole :: ps) (a ++ b).

(** The ordinary characters of the pieces are free of regular-expression
    syntax. *)
Definition literalPieces (ps : list piece) : bool :=
  forallb (fun p => match p with
                    | Ch c => negb (Regex.special c)
                    | Hole => true
                    end) ps.

Definition atomOfPiece (p : piece) : Regex.atom :=
  match p with
  | Ch c => Regex.Lit c
  | Hole => Regex.NotSlashPlus
  end.

(** The pattern text of the pieces. *)
Fixpoint render (ps : list piece) : string :=
  match ps with
  | Ch c :: ps' => String c (render ps')
  | Hole :: ps' => "[^/]+" ++ render ps'
  | [] => EmptyString
  end.

(** The ordinary characters among the pieces. *)
Definition isCh (p : piece) : bool :=
  match p with Ch _ => true | Hole => false end.
Unset Implicit Arguments.

(* ------------------------------------------------------------------ *)
(** ** The operation registry *)

Section Registry.

Variable A : Type.
Implicit Types (o : list (string * A)) (k : string) (keys : list string).

Lemma lookup_In o k v : lookup k o = Some v -> In (k, v) o.
Proof.
  unfold lookup. destruct (find _ o) as [[k' v']|] eqn:F; [|discriminate].
  intros [= <-]. apply find_some in F as [HIn Hk].
  simpl in Hk. apply String.eqb_eq in Hk. now subst.
Qed.

Lemma In_lookup o k v :
  NoDup (map fst o) -> In (k, v) o -> lookup k o = Some v.
Proof.
  unfold lookup. induction o as [|[k' v'] o IH]; simpl; [easy|].
  intros ND [E|HIn].
  - injection E as -> ->. now rewrite String.eqb_refl.
  - inversion ND as [|? ? Hnot ND']; subst.
    destruct (String.eqb_spec k' k) as [->|_].
    + exfalso. apply Hnot. apply in_map_iff. now exists (k, v).
    + now apply IH.
Qed.

Lemma declares_lookup o k :
  declares o k = match lookup k o with Some _ => true | None => false end.
Proof.
  unfold declares, lookup.
  induction o as [|[k' v'] o IH]; simpl; [easy|].
  now destruct (String.eqb k' k).
Qed.

Lemma In_pickEntries o keys k v :
  In (k, v) (pickEntries o keys) <-> In k keys /\ lookup k o = Some v.
Proof.
  unfold pickEntries. rewrite in_flat_map. split.
  - intros [k' [HIn Hk]]. destruct (lookup k' o) eqn:L; [|easy].
    destruct Hk as [[= <- <-]|[]]. easy.
  - intros [HIn L]. exists k. split; [easy|]. rewrite L. now left.
Qed.

Lemma keys_pickEntries o keys :
  map fst (pickEntries o keys) = filter (declares o) keys.
Proof.
  unfold pickEntries. induction keys as [|k keys IH]; simpl; [easy|].
  rewrite map_app, IH, declares_lookup. now destruct (lookup k o).
Qed.

End Registry.

Lemma In_getOperations r op :
  In op (getOperations r) <->
  exists p item m oo,
    In (p, item) (orEmpty (paths (definition r))) /\
    In m httpMethods /\ lookup m (pi_entries item) = Some oo /\
    op = descriptor (definition r) p item m oo.
Proof.
  unfold getOperations. rewrite in_flat_map. split.
  - intros [[p item] [HIn Hop]]. apply in_map_iff in Hop as [[m oo] [E Hm]].
    apply In_pickEntries in Hm as [Hm L]. now exists p, item, m, oo.
  - intros (p & item & m & oo & HIn & Hm & L & ->).
    exists (p, item). split; [easy|]. apply in_map_iff. exists (m, oo).
    split; [easy|]. now apply In_pickEntries.
Qed.

Lemma In_documentOrder r op :
  In op (documentOrder r) <->
  exists p item m oo,
    In (p, item) (orEmpty (paths (definition r))) /\
    In m httpMethods /\ In (m, oo) (pi_entries item) /\
    op = descriptor (definition r) p item m oo.
Proof.
  unfold documentOrder. rewrite in_flat_map. split.
  - intros [[p item] [HIn Hop]]. apply in_map_iff in Hop as [[m oo] [E Hm]].
    apply filter_In in Hm as [Hm Hk]. cbn [fst] in Hk.
    apply existsb_exists in Hk as [m' [Hm' E']].
    apply String.eqb_eq in E'. subst m'. now exists p, item, m, oo.
  - intros (p & item & m & oo & HIn & Hm & L & ->).
    exists (p, item). split; [easy|]. apply in_map_iff. exists (m, oo).
    split; [easy|]. apply filter_In. split; [easy|]. cbn [fst].
    apply existsb_exists. exists m. split; [easy|]. apply String.eqb_refl.
Qed.

Lemma keys_getOperations r :
  map key (getOperations r) =
  flat_map (fun '(p, item) =>
              map (pair p) (filter (declares (pi_entries item)) httpMethods))
           (orEmpty (paths (definition r))).
Proof.
  unfold getOperations.
  induction (orEmpty (paths (definition r))) as [|[p item] l IH];
    cbn [flat_map]; [easy|].
  rewrite map_app, IH. f_equal.
  rewrite <- keys_pickEntries, !map_map. apply map_ext. now intros [m oo].
Qed.

Lemma NoDup_httpMethods : NoDup httpMethods.
Proof.
  unfold httpMethods.
  repeat (constructor; [simpl; intuition discriminate|]). constructor.
Qed.

Lemma NoDup_pairs (ps : list (string * PathItemObject)) (f : PathItemObject -> list string) :
  NoDup (map fst ps) -> (forall item, NoDup (f item)) ->
  NoDup (flat_map (fun '(p, item) => map (pair p) (f item)) ps).
Proof.
  intros ND Hf. induction ps as [|[p item] ps IH]; simpl; [constructor|].
  inversion ND as [|? ? Hnot ND']; subst.
  apply NoDup_app; [| now apply IH |].
  - apply Injective_map_NoDup; [|apply Hf]. now intros x y [=].
  - intros [p' m] H1 H2. apply in_map_iff in H1 as [m' [[= <- <-] _]].
    apply in_flat_map in H2 as [[q item'] [Hq H2]].
    apply in_map_iff in H2 as [m'' [[= -> _] _]].
    apply Hnot. apply in_map_iff. now exists (p, item').
Qed.

Lemma NoDup_keys_getOperations r :
  NoDup (map fst (orEmpty (paths (definition r)))) ->
  NoDup (map key (getOperations r)).
Proof.
  intros ND. rewrite keys_getOperations.
  apply NoDup_pairs with (f := fun item => filter (declares (pi_entries item)) httpMethods);
    [easy|].
  intros item. apply NoDup_filter, NoDup_httpMethods.
Qed.

(** The operation-level parameters come first in the merged list, so a
    search of the merged list finds an operation-level entry before any
    path-level entry of the same name. *)
Lemma find_merged (A : Type) (f : A -> bool) (own shared : list A) :
  find f (own ++ shared) =
  match find f own with Some q => Some q | None => find f shared end.
Proof.
  induction own as [|q own IH]; simpl; [easy|]. now destruct (f q).
Qed.

(** C7, as the code has it. Every descriptor of the registry comes from a
    method [m] of a path item of the document. Its parameters are the
    operation's own followed by all those of the path item: nothing is
    dropped, so where both declare a name both entries are there, the
    operation's first, and a lookup by name (by any test) yields the
    operation-level entry when there is one and the path-level entry
    otherwise. Its security is the operation's own if present, else the
    document's default, else empty. *)
Theorem C7_descriptor_parameters_and_security (r : OpenAPIRouter) (op : Operation) :
  In op (getOperations r) ->
  exists item oo,
    In (path op, item) (orEmpty (paths (definition r))) /\
    In (method op, oo) (pi_entries item) /\
    parameters op
    = (orEmpty (oo_parameters oo) ++ orEmpty (pi_parameters item))%list /\
    (forall f : ParameterObject -> bool,
        find f (parameters op) =
        match find f (orEmpty (oo_parameters oo)) with
        | Some q => Some q
        | None => find f (orEmpty (pi_parameters item))
        end) /\
    (forall q, In q (parameters op) <->
               In q (orEmpty (oo_parameters oo)) \/
               In q (orEmpty (pi_parameters item))) /\
    security op =
    match oo_security oo, doc_security (definition r) with
    | Some own, _ => own
    | None, Some default => default
    | None, None => []
    end.
Proof.
  intros H. apply In_getOperations in H as (p & item & m & oo & HIn & Hm & L & ->).
  exists item, oo. cbn [path method parameters security descriptor].
  split; [exact HIn|]. split; [now apply lookup_In|].
  split; [reflexivity|].
  split; [intros f; apply find_merged|].
  split; [intros q; split; [apply in_app_or|apply in_or_app]|].
  destruct (oo_security oo); [easy|]. now destruct (doc_security _).
Qed.

Lemma C7_witness :
  In Sample.listPets (getOperations (newRouter Sample.overriding None)) /\
  exists item oo,
    In ("/pets", item) (orEmpty (paths Sample.overriding)) /\
    In ("get", oo) (pi_entries item) /\
    parameters Sample.listPets
    = (orEmpty (oo_parameters oo) ++ orEmpty (pi_parameters item))%list /\
    (forall f : ParameterObject -> bool,
        find f (parameters Sample.listPets) =
        match find f (orEmpty (oo_parameters oo)) with
        | Some q => Some q
        | None => find f (orEmpty (pi_parameters item))
        end) /\
    (forall q, In q (parameters Sample.listPets) <->
               In q (orEmpty (oo_parameters oo)) \/
               In q (orEmpty (pi_parameters item))) /\
    security Sample.listPets =
    match oo_security oo, doc_security Sample.overriding with
    | Some own, _ => own
    | None, Some default => default
    | None, None => []
    end.
Proof.
  split; [left; reflexivity|].
  apply (@C7_descriptor_parameters_and_security
           (newRouter Sample.overriding None) Sample.listPets).
  left; reflexivity.
Defined.

(** C7, as the specification words it, fails: the descriptor of an
    operation that declares [tags] again still lists the [tags] of the
    path item, so its parameters are not the merge in which the
    operation-level entry takes the place of the path-level one; and the
    second pass of [parseRequest] acts on the path-level entry, splitting
    a value that the operation declares exploded. *)
Lemma C7_counterexample :
  let r := newRouter Sample.reexploding None in
  let own := [Sample.queryParam "tags" None (Some true)] in
  let shared := [Sample.queryParam "tags" None (Some false)] in
  In Sample.reexploded (getOperations r) /\
  mergedByName own shared = own /\
  parameters Sample.reexploded = (own ++ shared)%list /\
  parameters Sample.reexploded <> mergedByName own shared /\
  exists res st',
    parseRequest Sample.noCookies Sample.noParams r [[("tags", One "a,b")]]
                 (Sample.structured Absent) (Some Sample.reexploded)
    = Some (Parsed res, st') /\
    read st' (query res) = [("tags", Many ["a"; "b"])].
Proof.
  intros r own shared. split; [left; reflexivity|].
  split; [reflexivity|]. split; [reflexivity|]. split; [discriminate|].
  eexists. eexists. split; reflexivity.
Qed.

Lemma wellFormed_single (p : string) (item : PathItemObject) (sec : option (list securityRequirement)) :
  NoDup (map fst (pi_entries item)) ->
  wellFormed {| paths := Some [(p, item)]; doc_security := sec |}.
Proof.
  intros ND. split; simpl.
  - constructor; [easy|constructor].
  - intros q item' [[= _ <-]|[]]. exact ND.
Qed.

(** C8, as the code has it. For a document whose objects have no key
    twice, [getOperations] lists exactly the descriptors of the declared
    methods of the paths (the same ones as the listing in document order),
    one for each (path template, method) pair; the paths come in document
    order and, within one path, the methods in the fixed order get, put,
    post, delete, options, head, patch, trace. *)
Theorem C8_getOperations_listing (r : OpenAPIRouter) :
  wellFormed (definition r) ->
  (forall op, In op (getOperations r) <-> In op (documentOrder r)) /\
  NoDup (map key (getOperations r)) /\
  map key (getOperations r) =
  flat_map (fun '(p, item) =>
              map (pair p) (filter (declares (pi_entries item)) httpMethods))
           (orEmpty (paths (definition r))).
Proof.
  intros [NDp NDe]. split; [|split].
  - intros op. rewrite In_getOperations, In_documentOrder.
    split; intros (p & item & m & oo & HIn & Hm & L & ->);
      exists p, item, m, oo; repeat (split; [easy|]); (split; [|easy]).
    + now apply lookup_In.
    + apply In_lookup; [|easy]. now apply (NDe p).
  - now apply NoDup_keys_getOperations.
  - apply keys_getOperations.
Qed.

Lemma C8_witness :
  let r := newRouter Sample.postThenGet None in
  wellFormed (definition r) /\
  (forall op, In op (getOperations r) <-> In op (documentOrder r)) /\
  NoDup (map key (getOperations r)) /\
  map key (getOperations r) = [("/pets", "get"); ("/pets", "post")].
Proof.
  intros r.
  assert (W : wellFormed (definition r)).
  { apply wellFormed_single. simpl.
    repeat (constructor; [simpl; intuition discriminate|]). constructor. }
  split; [exact W|]. exact (C8_getOperations_listing r W).
Defined.

(** C8, as the specification words it, fails: a path item that declares
    post before get is listed with get first. *)
Lemma C8_counterexample :
  let r := newRouter Sample.postThenGet None in
  wellFormed (definition r) /\
  map key (documentOrder r) = [("/pets", "post"); ("/pets", "get")] /\
  map key (getOperations r) = [("/pets", "get"); ("/pets", "post")] /\
  getOperations r <> documentOrder r.
Proof.
  intros r. split; [|split; [reflexivity|split; [reflexivity|discriminate]]].
  apply wellFormed_single. simpl.
  repeat (constructor; [simpl; intuition discriminate|]). constructor.
Qed.

(* ------------------------------------------------------------------ *)
(** ** Patterns of plain strings *)

Lemma same_refl c : Str.same c c = true.
Proof. apply Ascii.eqb_refl. Qed.

Lemma same_eq c d : Str.same c d = true -> c = d.
Proof. apply Ascii.eqb_eq. Qed.

Lemma not_special c :
  Regex.special c = false ->
  Str.same c "^" = false /\ Str.same c "$" = false /\
  Str.same c "[" = false /\ Str.same c "." = false /\
  Regex.quantifier c = false.
Proof.
  unfold Regex.special, Regex.quantifier. intros H.
  apply negb_false_iff in H. cbn [Str.allb] in H.
  repeat (apply andb_prop in H as [?H H]).
  repeat match goal with
         | E : negb _ = true |- _ => apply negb_true_iff in E; rewrite E
         end.
  easy.
Qed.

Lemma plainChar_quantifier c : plainChar c = true -> Regex.quantifier c = false.
Proof.
  unfold plainChar. intros H. apply orb_prop in H as [H|H].
  - apply negb_true_iff in H. now apply not_special in H.
  - apply same_eq in H. now subst.
Qed.

(** A plain character followed by no quantifier compiles to its atom. *)
Lemma compileFrom_plainChar c rest :
  plainChar c = true ->
  match rest with String q _ => Regex.quantifier q | _ => false end = false ->
  Regex.compileFrom 0 (String c rest) =
  option_map (cons (atomOf c)) (Regex.compileFrom 0 rest).
Proof.
  unfold plainChar, atomOf. intros H Q. apply orb_prop in H as [H|H].
  - apply negb_true_iff in H.
    destruct (not_special _ H) as (E1 & E2 & E3 & E4 & _).
    cbn [Regex.compileFrom]. now rewrite E1, E2, E3, E4, H, Q.
  - apply same_eq in H. subst c. reflexivity.
Qed.

Lemma compileFrom_plain s tail :
  plain s = true ->
  match tail with String q _ => Regex.quantifier q | _ => false end = false ->
  Regex.compileFrom 0 (s ++ tail) =
  option_map (app (atomsOf s)) (Regex.compileFrom 0 tail).
Proof.
  intros P Q. induction s as [|c s IH].
  - simpl. now destruct (Regex.compileFrom 0 tail).
  - cbn [plain Str.allb] in P. apply andb_prop in P as [Pc Ps].
    change (String c s ++ tail) with (String c (s ++ tail)).
    rewrite compileFrom_plainChar, IH; trivial.
    + now destruct (Regex.compileFrom 0 tail).
    + destruct s as [|d s]; [exact Q|].
      cbn [plain Str.allb] in Ps. apply andb_prop in Ps as [Pd _].
      now apply plainChar_quantifier.
Qed.

(** The atoms of a plain string consume that string. *)
Lemma run_atomsOf (A : Type) s (q : Regex.regex) (k : bool -> string -> option A)
      start rest :
  Regex.run (atomsOf s ++ q)%list k start (s ++ rest) =
  Regex.run q k (match s with EmptyString => start | _ => false end) rest.
Proof.
  revert start. induction s as [|c s IH]; intros start; [reflexivity|].
  change (String c s ++ rest) with (String c (s ++ rest)).
  cbn [atomsOf app]. unfold atomOf at 1.
  destruct (Str.same c ".") eqn:E; cbn [Regex.run].
  - apply same_eq in E. subst c. cbn. rewrite IH. now destruct s.
  - rewrite same_refl, IH. now destruct s.
Qed.

Lemma startsWith_app p s : Str.startsWith p (p ++ s) = true.
Proof.
  induction p as [|c p IH]; simpl; [easy|]. now rewrite same_refl.
Qed.

(** The pattern of [normalizePath] for a plain root. *)
Lemma compile_rootPattern root :
  plain root = true ->
  Regex.compile ("^" ++ root ++ "/?") =
  Some (Regex.Bol :: (atomsOf root ++ [Regex.Opt "/"])%list).
Proof.
  intros P. unfold Regex.compile.
  change ("^" ++ root ++ "/?") with (String "^" (root ++ "/?")).
  change (Regex.compileFrom 0 (String "^" (root ++ "/?")))
    with (option_map (cons Regex.Bol) (Regex.compileFrom 0 (root ++ "/?"))).
  now rewrite compileFrom_plain.
Qed.

(** [normalizePath] on a path that begins with a plain root: the root and
    one slash after it, if there is one, are replaced by one slash. *)
Lemma normalizePath_plain r rest :
  plain (apiRoot r) = true ->
  normalizePath r (apiRoot r ++ rest) = Some (String "/" (dropOneSlash rest)).
Proof.
  intros P. unfold normalizePath. rewrite (compile_rootPattern _ P).
  unfold Regex.replaceFirst.
  assert (S : Regex.search (Regex.Bol :: (atomsOf (apiRoot r) ++ [Regex.Opt "/"])%list)
                           true (apiRoot r ++ rest)
              = Some (EmptyString, dropOneSlash rest)).
  { assert (R : Regex.run (Regex.Bol :: (atomsOf (apiRoot r) ++ [Regex.Opt "/"])%list)
                          (fun _ t => Some t) true (apiRoot r ++ rest)
                = Some (dropOneSlash rest)).
    { cbn [Regex.run]. rewrite run_atomsOf. cbn [Regex.run].
      destruct rest as [|d rest']; [reflexivity|].
      now destruct d as [[] [] [] [] [] [] [] []]. }
    destruct (apiRoot r ++ rest); cbn [Regex.search]; now rewrite R. }
  now rewrite S.
Qed.

(* ------------------------------------------------------------------ *)
(** ** Malformed patterns *)

Lemma match_question_mark (A : Type) (q : ascii) (x y : A) :
  match q with "?"%char => x | _ => y end
  = if Str.same q "?" then x else y.
Proof. now destruct q as [[] [] [] [] [] [] [] []]. Qed.

(** A pattern on which the constructor throws has no compiled form. *)
Lemma malformedFrom_compileFrom s : forall skip,
  Regex.malformedFrom skip s = true -> Regex.compileFrom skip s = None.
Proof.
  induction s as [|c r IH]; intros skip H; [discriminate|].
  cbn [Regex.malformedFrom Regex.compileFrom] in *.
  destruct skip as [|k]; [|now apply IH].
  destruct (Str.same c ")") eqn:P.
  { apply same_eq in P. now subst c. }
  destruct (Str.same c "^"); [now rewrite (IH 0 H)|].
  destruct (Str.same c "$"); [now rewrite (IH 0 H)|].
  destruct (Str.same c "[").
  { destruct (Str.startsWith Regex.classSuffix r); [|discriminate].
    now rewrite (IH 4 H). }
  destruct (Str.same c "."); [now rewrite (IH 0 H)|].
  destruct (Regex.special c); [discriminate|].
  destruct r as [|q r']; [discriminate|].
  destruct (Regex.quantifier q) eqn:Q.
  - rewrite match_question_mark.
    destruct (Str.same q "?"); [now rewrite (IH 1 H)|reflexivity].
  - now rewrite (IH 0 H).
Qed.

Lemma malformed_not_compiled s :
  Regex.malformed s = true -> Regex.compile s = None.
Proof. apply malformedFrom_compileFrom. Qed.

Lemma compiles_not_malformed s :
  compiles s = true -> Regex.malformed s = false.
Proof.
  unfold compiles. intros C. destruct (Regex.malformed s) eqn:M; [|reflexivity].
  now rewrite (malformed_not_compiled s M) in C.
Qed.

Lemma normalizePath_not_malformed r p np :
  normalizePath r p = Some np -> Regex.malformed (rootPattern r) = false.
Proof.
  unfold normalizePath. intros N. apply compiles_not_malformed.
  unfold compiles, rootPattern. now destruct (Regex.compile _).
Qed.

Lemma covered_not_malformed r :
  covered r = true ->
  Regex.malformed (rootPattern r) = false /\ someTemplateMalformed r = false.
Proof.
  unfold covered. intros C. apply andb_prop in C as [Cr Ct].
  split; [now apply compiles_not_malformed|].
  unfold someTemplateMalformed. rewrite forallb_forall in Ct.
  destruct (existsb _ _) eqn:E; [|reflexivity].
  apply existsb_exists in E as (op & HIn & M).
  now rewrite (compiles_not_malformed _ (Ct op HIn)) in M.
Qed.

(* ------------------------------------------------------------------ *)
(** ** The shape of [matchOperation] on a covered router *)

Lemma filterM_total (A : Type) (f : A -> option bool) (l : list A) :
  (forall x, In x l -> f x <> None) ->
  filterM f l =
  Some (filter (fun x => match f x with Some b => b | None => false end) l).
Proof.
  induction l as [|x l IH]; intros H; [reflexivity|].
  cbn [filterM filter]. destruct (f x) as [b|] eqn:E.
  - rewrite IH; [reflexivity|]. intros y Hy. apply H. now right.
  - exfalso. apply (H x); [now left|exact E].
Qed.

Lemma covered_root r :
  covered r = true -> forall p, exists np, normalizePath r p = Some np.
Proof.
  unfold covered, compiles, normalizePath. intros H p.
  apply andb_prop in H as [H _].
  destruct (Regex.compile _) as [rx|]; [|discriminate]. now eexists.
Qed.

Lemma covered_templates r p :
  covered r = true ->
  filterM (templateMatches p) (getOperations r) =
  Some (filter (accepts p) (getOperations r)).
Proof.
  unfold covered. intros H. apply andb_prop in H as [_ H].
  rewrite forallb_forall in H. unfold accepts. apply filterM_total.
  intros op Hop. specialize (H op Hop). unfold compiles in H.
  unfold templateMatches. now destruct (Regex.compile _).
Qed.

Lemma matchOperation_rejects r req strict :
  Str.startsWith (apiRoot r) (req_path (normalizeRequest req)) = false ->
  matchOperation r req strict = Some (fail strict notFound).
Proof. unfold matchOperation. now intros ->. Qed.

Lemma matchOperation_phases r req strict np :
  covered r = true ->
  Str.startsWith (apiRoot r) (req_path (normalizeRequest req)) = true ->
  normalizePath r (req_path (normalizeRequest req)) = Some np ->
  matchOperation r req strict =
  Some (phases r np (req_method (normalizeRequest req)) strict).
Proof.
  intros C S N. unfold matchOperation, phases.
  destruct (covered_not_malformed r C) as [Mr Mt].
  rewrite S, Mr, N. cbn [negb].
  destruct (find _ (filter _ _)); [reflexivity|].
  rewrite Mt, covered_templates by exact C.
  destruct (filter (accepts np) _); [reflexivity|].
  now destruct (find _ _).
Qed.

(** C10. The root check is a plain prefix test: for a root without
    regular-expression syntax, every path that continues the root by any
    text [rest] (a segment boundary or not) passes it; [normalizePath]
    replaces the root and at most one slash after it by one slash; and the
    request goes on to the two phases with that comparison path instead of
    being rejected. *)
Theorem C10_root_prefix_without_boundary (r : OpenAPIRouter) (rest : string) :
  plain (apiRoot r) = true ->
  Str.startsWith (apiRoot r) (apiRoot r ++ rest) = true /\
  normalizePath r (apiRoot r ++ rest) = Some (String "/" (dropOneSlash rest)) /\
  forall req strict,
    covered r = true ->
    req_path (normalizeRequest req) = apiRoot r ++ rest ->
    matchOperation r req strict =
    Some (phases r (String "/" (dropOneSlash rest))
                 (req_method (normalizeRequest req)) strict).
Proof.
  intros P. split; [apply startsWith_app|].
  split; [now apply normalizePath_plain|].
  intros req strict C E. apply matchOperation_phases; trivial; rewrite E.
  - apply startsWith_app.
  - now apply normalizePath_plain.
Qed.

Lemma C10_witness :
  let r := newRouter Sample.ary (Some "/api") in
  plain (apiRoot r) = true /\
  Str.startsWith "/api" "/apiary/pets" = true /\
  normalizePath r "/apiary/pets" = Some "/ary/pets" /\
  matchOperation r (Sample.request "GET" "/apiary/pets") true
  = Some (Returns Sample.aryPets).
Proof.
  intros r.
  assert (P : plain (apiRoot r) = true) by reflexivity.
  destruct (@C10_root_prefix_without_boundary r "ary/pets" P) as (S & N & M).
  split; [exact P|]. split; [exact S|]. split; [exact N|].
  rewrite (M (Sample.request "GET" "/apiary/pets") true); reflexivity.
Defined.

(* ------------------------------------------------------------------ *)
(** ** What a placeholder accepts *)

(** A pattern that begins with [^] matches nowhere but at the start. *)
Lemma search_bol_false p s : Regex.search (Regex.Bol :: p) false s = None.
Proof.
  induction s as [|c s IH]; cbn [Regex.search Regex.run]; [reflexivity|].
  now rewrite IH.
Qed.

(** [[^/]+$] takes a non-empty rest without a slash, and nothing else. *)
Lemma run_plus_eol s :
  Regex.run [Regex.NotSlashPlus; Regex.Eol] (fun _ rest => Some rest) false s =
  if negb (String.eqb s "") && Str.allb (fun c => negb (Str.same c "/")) s
  then Some EmptyString else None.
Proof.
  induction s as [|c s IH]; [reflexivity|].
  change (Regex.run [Regex.NotSlashPlus; Regex.Eol] (fun _ rest => Some rest) false (String c s))
    with (if Str.same c "/" then None
          else match Regex.run [Regex.NotSlashPlus; Regex.Eol] (fun _ rest => Some rest) false s with
               | Some a => Some a
               | None => Regex.run [Regex.Eol] (fun _ rest => Some rest) false s
               end).
  rewrite IH. cbn [Str.allb String.eqb negb andb].
  destruct (Str.same c "/"); [reflexivity|]. cbn [negb].
  destruct s as [|d s]; [reflexivity|]. cbn [String.eqb negb andb].
  now destruct (Str.allb _ (String d s)).
Qed.

(** The template [/pets/{id}] accepts exactly the paths [/pets/] followed
    by one or more characters other than a slash. *)
Lemma placeholder_accepts m s :
  accepts ("/pets/" ++ s) (Sample.petById m) =
  negb (String.eqb s "") && Str.allb (fun c => negb (Str.same c "/")) s.
Proof.
  unfold accepts, templateMatches.
  replace (Regex.compile (pathPattern (path (Sample.petById m))))
    with (Some (Regex.Bol :: atomsOf "/pets/" ++ [Regex.NotSlashPlus; Regex.Eol])%list)
    by reflexivity.
  unfold Regex.test.
  assert (R : Regex.search (Regex.Bol :: atomsOf "/pets/" ++ [Regex.NotSlashPlus; Regex.Eol])%list
                           true ("/pets/" ++ s)
              = option_map (pair EmptyString)
                  (Regex.run [Regex.NotSlashPlus; Regex.Eol] (fun _ rest => Some rest) false s)).
  { change ("/pets/" ++ s) with (String "/" ("pets/" ++ s)).
    cbn [Regex.search]. cbn [Regex.run].
    pose proof (run_atomsOf _ "/pets/" [Regex.NotSlashPlus; Regex.Eol]
                  (fun _ rest => Some rest) true s) as E.
    cbn [Regex.run] in E |- *.
    change (String "/" ("pets/" ++ s)) with ("/pets/" ++ s). rewrite E.
    destruct ((fix plus (t : string) : option string := _) s); [reflexivity|].
    cbn [option_map]. now rewrite search_bol_false. }
  rewrite R, run_plus_eol. now destruct (negb _ && _).
Qed.

(* ------------------------------------------------------------------ *)
(** ** The exact phase *)

Lemma find_filter (A : Type) (f g : A -> bool) (l : list A) :
  find f (filter g l) = find (fun x => g x && f x) l.
Proof.
  induction l as [|x l IH]; [reflexivity|]. cbn [filter find].
  destruct (g x); cbn [find andb]; [|exact IH]. now rewrite IH.
Qed.

Lemma find_unique (A B : Type) (k : A -> B) (f : A -> bool) (l : list A) (x : A) :
  NoDup (map k l) -> In x l -> f x = true ->
  (forall y, In y l -> f y = true -> k y = k x) ->
  find f l = Some x.
Proof.
  induction l as [|y l IH]; intros ND HIn Fx U; [easy|].
  cbn [find]. inversion ND as [|? ? Hnot ND']; subst.
  destruct HIn as [->|HIn]; [now rewrite Fx|].
  destruct (f y) eqn:Fy.
  - exfalso. apply Hnot. rewrite (U y (or_introl eq_refl) Fy).
    now apply in_map.
  - apply IH; trivial. intros z Hz. apply U. now right.
Qed.

(** C1. Take a request that passes the root check and whose comparison
    path is literally the template of a registered operation [op] with the
    request's normalized method. Whatever the other templates are, the
    exact phase finds [op] and [matchOperation] returns it, in strict and
    in non-strict mode. *)
Theorem C1_exact_match_first (r : OpenAPIRouter) (req : Request) (op : Operation) :
  NoDup (map fst (orEmpty (paths (definition r)))) ->
  In op (getOperations r) ->
  Str.startsWith (apiRoot r) (req_path (normalizeRequest req)) = true ->
  normalizePath r (req_path (normalizeRequest req)) = Some (path op) ->
  method op = req_method (normalizeRequest req) ->
  find (hasMethod (req_method (normalizeRequest req)))
       (filter (fun o => String.eqb (path o) (path op)) (getOperations r))
  = Some op /\
  forall strict, matchOperation r req strict = Some (Returns op).
Proof.
  intros ND HIn S N M.
  assert (F : find (hasMethod (req_method (normalizeRequest req)))
                   (filter (fun o => String.eqb (path o) (path op))
                           (getOperations r)) = Some op).
  { rewrite find_filter.
    apply find_unique with (k := key); trivial.
    - now apply NoDup_keys_getOperations.
    - unfold hasMethod. now rewrite String.eqb_refl, M, String.eqb_refl.
    - intros y _ H. apply andb_prop in H as [Hp Hm].
      apply String.eqb_eq in Hp. apply String.eqb_eq in Hm.
      unfold key. now rewrite Hp, Hm, M. }
  split; [exact F|]. intros strict.
  unfold matchOperation.
  rewrite S, (normalizePath_not_malformed _ _ _ N), N. cbn [negb].
  now rewrite F.
Qed.

Lemma C1_witness :
  let r := newRouter Sample.pets None in
  accepts "/pets/mine" (Sample.petById "get") = true /\
  matchOperation r (Sample.request "GET" "/pets/mine/") true
  = Some (Returns Sample.petsMine).
Proof.
  intros r. split; [reflexivity|].
  refine (proj2 (@C1_exact_match_first r (Sample.request "GET" "/pets/mine/")
                   Sample.petsMine _ _ _ _ _) true).
  - simpl. repeat (constructor; [simpl; intuition discriminate|]). constructor.
  - simpl. tauto.
  - reflexivity.
  - reflexivity.
  - reflexivity.
Defined.

(* ------------------------------------------------------------------ *)
(** ** The template phase: ordering by specificity *)

Section OrderBy.

Variable A : Type.
Variable score : A -> nat.
Variable p : A -> bool.

Lemma descending_tail x l : descending score (x :: l) -> descending score l.
Proof. intros D l1 y l2 z E. apply (D (x :: l1) y l2 z). now rewrite E. Qed.

Lemma descending_head x l z : descending score (x :: l) -> In z l -> score z <= score x.
Proof. intros D. now apply (D [] x l z). Qed.

Lemma descending_cons x l :
  (forall z, In z l -> score z <= score x) -> descending score l ->
  descending score (x :: l).
Proof.
  intros H D l1 y l2 z E HIn. destruct l1 as [|x' l1]; injection E as E1 E2.
  - subst. now apply H.
  - now apply (D l1 y l2 z).
Qed.

Lemma In_insertDesc x l z : In z (insertDesc score x l) <-> z = x \/ In z l.
Proof.
  induction l as [|y l IH]; simpl; [intuition|].
  destruct (score x <? score y); simpl; [rewrite IH|]; intuition.
Qed.

Lemma descending_insertDesc x l :
  descending score l -> descending score (insertDesc score x l).
Proof.
  induction l as [|y l IH]; intros D; cbn [insertDesc].
  - apply descending_cons; [easy|]. intros l1 y l2 z E. now destruct l1.
  - destruct (Nat.ltb_spec (score x) (score y)) as [L|L].
    + apply descending_cons; [|apply IH; now apply descending_tail in D].
      intros z Hz. apply In_insertDesc in Hz as [->|Hz]; [lia|].
      now apply (descending_head y l z D).
    + apply descending_cons; [|exact D].
      intros z [->|Hz]; [exact L|].
      pose proof (descending_head y l z D Hz). lia.
Qed.

Lemma descending_orderByDesc l : descending score (orderByDesc score l).
Proof.
  induction l as [|x l IH]; cbn [orderByDesc fold_right].
  - intros l1 y l2 z E. now destruct l1.
  - now apply descending_insertDesc.
Qed.

Lemma find_insertDesc x l :
  descending score l ->
  find p (insertDesc score x l) =
  match find p l with
  | Some y => if score x <? score y then Some y
              else if p x then Some x else Some y
  | None => if p x then Some x else None
  end.
Proof.
  induction l as [|y l IH]; intros D; cbn [insertDesc]; [easy|].
  destruct (Nat.ltb_spec (score x) (score y)) as [L|L].
  - cbn [find]. destruct (p y); [now apply Nat.ltb_lt in L as ->|].
    apply IH. now apply descending_tail in D.
  - change (find p (x :: y :: l)) with (if p x then Some x else find p (y :: l)).
    destruct (find p (y :: l)) as [z|] eqn:F; [|reflexivity].
    apply find_some in F as [Hz _].
    assert (score z <= score y).
    { destruct Hz as [<-|Hz]; [lia|]. now apply (descending_head y l z D). }
    replace (score x <? score z) with false
      by (symmetry; apply Nat.ltb_ge; lia).
    now destruct (p x).
Qed.

Lemma find_orderByDesc l :
  match find p (orderByDesc score l) with
  | Some x => firstBest score p l x
  | None => forall y, In y l -> p y = false
  end.
Proof.
  induction l as [|x l IH]; [now cbn|].
  cbn [orderByDesc fold_right]. fold (orderByDesc score l).
  rewrite find_insertDesc by apply descending_orderByDesc.
  destruct (find p (orderByDesc score l)) as [y|].
  - destruct IH as (l1 & l2 & -> & Py & H1 & H2).
    destruct (Nat.ltb_spec (score x) (score y)) as [L|L];
      [|destruct (p x) eqn:Px].
    + exists (x :: l1), l2. repeat split; trivial.
      intros z [<-|Hz] Pz; [exact L|now apply H1].
    + exists [], (l1 ++ y :: l2)%list. repeat split; trivial; [easy|].
      intros z Hz Pz. apply in_app_or in Hz as [Hz|[<-|Hz]]; [|exact L|].
      * specialize (H1 z Hz Pz). lia.
      * specialize (H2 z Hz Pz). lia.
    + exists (x :: l1), l2. repeat split; trivial.
      intros z [<-|Hz] Pz; [congruence|now apply H1].
  - destruct (p x) eqn:Px.
    + exists [], l. repeat split; trivial; [easy|].
      intros z Hz Pz. rewrite (IH z Hz) in Pz. discriminate.
    + intros z [<-|Hz]; [exact Px|now apply IH].
Qed.

End OrderBy.



(* ------------------------------------------------------------------ *)
(** ** Failure signalling *)

Lemma phases_lenient r np m :
  phases r np m false = lenient (phases r np m true) /\
  phases r np m true <> ReturnsUndefined /\
  forall msg, phases r np m true = Throws msg ->
              msg = notFound \/ msg = methodNotAllowed.
Proof.
  unfold phases.
  destruct (find _ (filter _ _)); [now repeat split|].
  destruct (filter (accepts np) _); [repeat split; try easy|].
  - intros msg [= <-]. now left.
  - destruct (find _ _); repeat split; try easy.
    intros msg [= <-]. now right.
Qed.

Lemma phases_notFound r np m :
  (forall op, In op (getOperations r) ->
              path op <> np /\ accepts np op = false) ->
  phases r np m true = Throws notFound.
Proof.
  intros H. unfold phases.
  destruct (find _ (filter _ _)) as [e|] eqn:F.
  - apply find_some in F as [F _]. apply filter_In in F as [HIn E].
    apply String.eqb_eq in E. now destruct (H e HIn).
  - destruct (filter (accepts np) _) as [|o l] eqn:E; [reflexivity|].
    assert (HIn : In o (filter (accepts np) (getOperations r)))
      by (rewrite E; now left).
    apply filter_In in HIn as [HIn A].
    destruct (H o HIn) as [_ A']. congruence.
Qed.

Lemma phases_methodNotAllowed r np m :
  (exists op, In op (getOperations r) /\ accepts np op = true) ->
  (forall op, In op (getOperations r) ->
              path op = np \/ accepts np op = true -> method op <> m) ->
  phases r np m true = Throws methodNotAllowed.
Proof.
  intros (a & Ha & Acc) H. unfold phases.
  destruct (find _ (filter _ _)) as [e|] eqn:F.
  - apply find_some in F as [F M]. apply filter_In in F as [HIn E].
    apply String.eqb_eq in E. apply String.eqb_eq in M.
    now destruct (H e HIn (or_introl E)).
  - destruct (filter (accepts np) _) as [|o l] eqn:E.
    + assert (In a []) as []. rewrite <- E. apply filter_In. now split.
    + rewrite <- E.
      pose proof (find_orderByDesc Operation specificity (hasMethod m)
                    (filter (accepts np) (getOperations r))) as B.
      destruct (find _ (orderByDesc _ _)) as [x|]; [|reflexivity].
      destruct B as (l1 & l2 & El & M & _).
      assert (HIn : In x (filter (accepts np) (getOperations r)))
        by (rewrite El; apply in_or_app; right; now left).
      apply filter_In in HIn as [HIn A]. apply String.eqb_eq in M.
      now destruct (H x HIn (or_intror A)).
Qed.

(** C3. The two messages are the ones of the source, but the conditions
    are not met on every document, because the text of a template goes
    into its pattern as it is. For the path [/$metadata], declared with
    get only, a post to [/$metadata] is answered with the 404 error
    although the path is the one of a registered operation: the pattern
    of the template does not accept the template's own text. And with a
    template [/files/**] in the document a request that the exact phase
    does not settle ends in a SyntaxError, in strict and in non-strict
    mode. *)
Theorem C3_templates_read_as_patterns :
  (In Sample.metadata (getOperations (newRouter Sample.odata None)) /\
   accepts "/$metadata" Sample.metadata = false /\
   matchOperation (newRouter Sample.odata None)
                  (Sample.request "POST" "/$metadata") true
   = Some (Throws notFound) /\
   matchOperation (newRouter Sample.odata None)
                  (Sample.request "POST" "/$metadata") false
   = Some ReturnsUndefined) /\
  (Regex.malformed (pathPattern "/files/**") = true /\
   forall strict,
     matchOperation (newRouter Sample.wildcard None)
                    (Sample.request "GET" "/owners") strict
     = Some (Throws syntaxError)).
Proof.
  split; [|split; [reflexivity|now intros []]].
  split; [left; reflexivity|]. now repeat split.
Qed.

(* ------------------------------------------------------------------ *)
(** ** Objects and the store *)

Lemma lookup_set_same k v (o : Qs.object) : lookup k (Qs.set k v o) = Some v.
Proof.
  unfold lookup. induction o as [|[k' w] o IH]; simpl.
  - now rewrite String.eqb_refl.
  - destruct (String.eqb_spec k' k) as [->|N]; simpl.
    + now rewrite String.eqb_refl.
    + destruct (String.eqb_spec k' k); [contradiction|exact IH].
Qed.

Lemma lookup_set_other k k' v (o : Qs.object) :
  k' <> k -> lookup k' (Qs.set k v o) = lookup k' o.
Proof.
  intros N. unfold lookup. induction o as [|[k0 w] o IH]; simpl.
  - destruct (String.eqb_spec k k'); [congruence|reflexivity].
  - destruct (String.eqb_spec k0 k) as [->|N0]; simpl.
    + destruct (String.eqb_spec k k'); [congruence|reflexivity].
    + destruct (String.eqb_spec k0 k'); [reflexivity|exact IH].
Qed.

Lemma keys_set_present k v (o : Qs.object) :
  lookup k o <> None -> map fst (Qs.set k v o) = map fst o.
Proof.
  unfold lookup. induction o as [|[k0 w] o IH]; simpl; [easy|].
  destruct (String.eqb_spec k0 k) as [->|N0]; simpl; [easy|].
  intros H. now rewrite IH.
Qed.

Lemma read_write_same st l o : l < List.length st -> read (write st l o) l = o.
Proof.
  unfold read. revert l. induction st as [|x st IH]; intros [|l] H; simpl in *;
    try lia; [reflexivity|]. apply IH. lia.
Qed.

Lemma read_write_other st l l' o : l' <> l -> read (write st l o) l' = read st l'.
Proof.
  unfold read. revert l l'.
  induction st as [|x st IH]; intros [|l] [|l'] H; simpl; try easy.
  apply IH. congruence.
Qed.

Lemma read_alloc st o l :
  l < List.length st -> read (st ++ [o])%list l = read st l.
Proof. intros H. unfold read. now rewrite app_nth1. Qed.

Lemma find_ext_in (A : Type) (f g : A -> bool) (l : list A) :
  (forall x, In x l -> f x = g x) -> find f l = find g l.
Proof.
  induction l as [|x l IH]; intros H; [reflexivity|]. cbn [find].
  rewrite (H x (or_introl eq_refl)), IH; [reflexivity|].
  intros y Hy. apply H. now right.
Qed.

(* ------------------------------------------------------------------ *)
(** ** The second pass *)

Lemma splitAll_spec selected : forall o o',
  splitAll selected o = (o', None) ->
  map fst o' = map fst o /\
  forall k,
    match find (named k) selected with
    | Some p => exists s, lookup k o = Some (One s) /\
                          lookup k o' = Some (Many (Str.split (delimiter p) s))
    | None => lookup k o' = lookup k o
    end.
Proof.
  induction selected as [|p selected IH]; intros o o' H; cbn [splitAll] in H.
  - injection H as <-. split; [reflexivity|]. now intros k.
  - destruct (lookup (name p) o) as [[| s |]|] eqn:L; try discriminate.
    destruct (IH _ _ H) as [K V]. split.
    + rewrite K. apply keys_set_present. now rewrite L.
    + intros k. cbn [find]. unfold named at 1.
      destruct (String.eqb_spec (name p) k) as [<-|N].
      * exists s. split; [exact L|].
        specialize (V (name p)).
        destruct (find (named (name p)) selected) as [p'|].
        -- destruct V as (s' & V1 & _).
           rewrite lookup_set_same in V1. discriminate.
        -- rewrite V. apply lookup_set_same.
      * specialize (V k). destruct (find (named k) selected) as [p'|].
        -- destruct V as (s' & V1 & V2). exists s'. split; [|exact V2].
           rewrite lookup_set_other in V1 by congruence. exact V1.
        -- rewrite V. apply lookup_set_other. congruence.
Qed.

Lemma splitUnexploded_spec parameters o o' :
  splitUnexploded parameters o = (o', None) ->
  map fst o' = map fst o /\
  forall k, lookup k o' = splitValue parameters k (lookup k o).
Proof.
  unfold splitUnexploded. intros H. apply splitAll_spec in H as [K V].
  split; [exact K|]. intros k. specialize (V k).
  rewrite !find_filter in V. unfold splitValue.
  destruct (lookup k o) as [[| s |]|] eqn:L.
  - destruct (find _ parameters) as [p|]; [|exact V].
    destruct V as (s & V & _). discriminate.
  - rewrite (find_ext_in _ _ (fun p => unexplodedQuery p && named k p)) in V.
    + destruct (find _ parameters) as [p|]; [|exact V].
      destruct V as (s' & [= <-] & V). exact V.
    + intros p _. unfold named.
      destruct (String.eqb_spec (name p) k) as [->|]; [rewrite L|];
        cbn; now rewrite ?andb_false_r.
  - destruct (find _ parameters) as [p|]; [|exact V].
    destruct V as (s & V & _). discriminate.
  - destruct (find _ parameters) as [p|]; [|exact V].
    destruct V as (s & V & _). discriminate.
Qed.

(* ------------------------------------------------------------------ *)
(** ** [parseRequest] with a structured query *)

(** C5, as the code has it. When the request carries a query object, the
    result's query is that object and the first pass does not run.
    Without an operation the object is as supplied. With an operation the
    second pass does run on it: in a call that returns, the object has the
    keys it had, the string value of a key for which the operation
    declares a query parameter with [explode: false] is split at the
    delimiter of the first such parameter, and every other value is as
    supplied; no other object of the store is touched. *)
Theorem C5_structured_query
        (cookieParse : string -> list (string * string))
        (bath : string -> string + (string -> option (list (string * string))))
        (r : OpenAPIRouter) (st : store) (req : Request) (l : loc) :
  req_query req = Some (QueryObject l) ->
  l < List.length st ->
  (exists res,
      parseRequest cookieParse bath r st req None = Some (Parsed res, st) /\
      query res = l) /\
  forall op,
    (compiles ("^" ++ apiRoot r ++ "/?") = true ->
     parseRequest cookieParse bath r st req (Some op) <> None) /\
    forall res st',
      parseRequest cookieParse bath r st req (Some op)
      = Some (Parsed res, st') ->
      query res = l /\
      map fst (read st' l) = map fst (read st l) /\
      (forall k, lookup k (read st' l)
                 = splitValue (parameters op) k (lookup k (read st l))) /\
      (forall l', l' <> l -> read st' l' = read st l').
Proof.
  intros Q V. unfold parseRequest. rewrite Q. cbn [fst snd isObject].
  split; [eexists; split; reflexivity|].
  intros op. destruct (Regex.malformed (rootPattern r));
    [split; [easy|intros res st' [=]]|].
  unfold compiles, normalizePath.
  destruct (Regex.compile _) as [rx|]; [|split; [easy|intros res st' [=]]].
  destruct (bath (path op)) as [e|paramsOf];
    [split; [easy|intros res st' [=]]|].
  assert (O : match queryStringOf (req_path req) with
              | Some (String c s) => Some (read st l)
              | _ => Some (read st l)
              end = Some (read st l)).
  { now destruct (queryStringOf _) as [[|]|]. }
  rewrite O. clear O.
  destruct (splitUnexploded (parameters op) (read st l)) as [o2 [e|]] eqn:S.
  - split; [easy|]. intros res st' [=].
  - split; [easy|]. intros res st' [= <- <-]. cbn [query].
    apply splitUnexploded_spec in S as [K W].
    rewrite read_write_same by exact V. repeat split; trivial.
    intros l' N. now apply read_write_other.
Qed.

Lemma C5_witness :
  let st := [[("tags", One "a,b"); ("limit", One "5")]] in
  let op := Sample.listing [Sample.queryParam "tags" None (Some false)] in
  exists res st',
    parseRequest Sample.noCookies Sample.noParams (newRouter Sample.pets None)
                 st (Sample.structured Absent) (Some op)
    = Some (Parsed res, st') /\
    query res = 0 /\
    lookup "tags" (read st' 0) = Some (Many ["a"; "b"]) /\
    lookup "limit" (read st' 0) = Some (One "5").
Proof.
  intros st op. eexists. eexists. split; [reflexivity|].
  destruct (C5_structured_query Sample.noCookies Sample.noParams
              (newRouter Sample.pets None) st (Sample.structured Absent) 0
              eq_refl (Nat.lt_0_succ 0)) as [_ H].
  destruct (H op) as [_ H'].
  destruct (H' _ _ eq_refl) as (Hq & _ & Hv & _).
  split; [exact Hq|]. split; rewrite Hv; reflexivity.
Defined.

(** C5, as the specification words it, fails: with an operation that
    declares [tags] with [explode: false], the query object
    [{tags: "a,b"}] comes back holding the array. *)
Lemma C5_counterexample :
  let st := [[("tags", One "a,b")]] in
  let op := Sample.listing [Sample.queryParam "tags" None (Some false)] in
  exists res st',
    parseRequest Sample.noCookies Sample.noParams (newRouter Sample.pets None)
                 st (Sample.structured Absent) (Some op)
    = Some (Parsed res, st') /\
    read st (query res) = [("tags", One "a,b")] /\
    read st' (query res) = [("tags", Many ["a"; "b"])] /\
    read st' (query res) <> read st (query res).
Proof.
  intros st op. eexists. eexists. split; [reflexivity|].
  repeat split. discriminate.
Qed.

(* ------------------------------------------------------------------ *)
(** ** The request body *)

Lemma decodeBody_bestEffort b : decodeBody b = bestEffortJson b.
Proof. now destruct b as [|[|c s]|v]. Qed.

(** C6. Whenever [parseRequest] returns, [requestBody] is the body itself
    if that is absent or structured, and for a string body the decoded
    JSON value, or the string itself when it is not JSON. The body has no
    part in whether the call returns: a call that returns, returns for
    every other body too, with the same store; a call that throws (in the
    second query pass) throws the same error for every body. The two
    strings of the specification decode as it says. *)
Theorem C6_requestBody_best_effort
        (cookieParse : string -> list (string * string))
        (bath : string -> string + (string -> option (list (string * string))))
        (r : OpenAPIRouter) (st : store) :
  (forall req op res st',
      parseRequest cookieParse bath r st req op = Some (Parsed res, st') ->
      requestBody res = bestEffortJson (req_body req)) /\
  (forall req op b,
      match parseRequest cookieParse bath r st req op with
      | Some (Parsed _ , st') =>
          exists res', parseRequest cookieParse bath r st (setBody req b) op
                       = Some (Parsed res', st')
      | Some (Raises e, st') =>
          parseRequest cookieParse bath r st (setBody req b) op
          = Some (Raises e, st')
      | None =>
          parseRequest cookieParse bath r st (setBody req b) op = None
      end) /\
  (exists res st',
      parseRequest cookieParse bath r st
                   (Sample.withBody "/pets" (Text Sample.jsonText)) None
      = Some (Parsed res, st') /\
      requestBody res = Structured (JObject [([120%N], JNumber "1")])) /\
  (exists res st',
      parseRequest cookieParse bath r st
                   (Sample.withBody "/pets" (Text "not json")) None
      = Some (Parsed res, st') /\
      requestBody res = Text "not json").
Proof.
  split; [|split; [|split]].
  - intros req op res st'. unfold parseRequest.
    rewrite decodeBody_bestEffort.
    destruct (match req_query req with
              | Some (QueryObject l) => Some (l, st)
              | _ => option_map (alloc st) (Qs.parse false (queryStringOf (req_path req)))
              end) as [[q st1]|]; [|discriminate].
    cbn [fst snd]. destruct op as [op|]; [|now intros [= <- _]].
    destruct (Regex.malformed _); [discriminate|].
    destruct (normalizePath _ _); [|discriminate].
    destruct (bath (path op)); [discriminate|].
    destruct (match queryStringOf (req_path req) with
              | Some (String _ _) => _ | _ => _ end); [|discriminate].
    destruct (splitUnexploded _ _) as [o2 [e|]]; [discriminate|].
    now intros [= <- _].
  - intros req op b. unfold parseRequest.
    cbn [setBody req_query req_path req_headers normalizeRequest req_method].
    destruct (match req_query req with
              | Some (QueryObject l) => Some (l, st)
              | _ => option_map (alloc st) (Qs.parse false (queryStringOf (req_path req)))
              end) as [[q st1]|]; [|reflexivity].
    cbn [fst snd]. destruct op as [op|]; [|now eexists].
    destruct (Regex.malformed _); [reflexivity|].
    destruct (normalizePath _ _); [|reflexivity].
    destruct (bath (path op)); [reflexivity|].
    destruct (match queryStringOf (req_path req) with
              | Some (String _ _) => _ | _ => _ end); [|reflexivity].
    destruct (splitUnexploded _ _) as [o2 [e|]]; [reflexivity|now eexists].
  - eexists. eexists. split; reflexivity.
  - eexists. eexists. split; reflexivity.
Qed.

Lemma C6_witness :
  exists res st',
    parseRequest Sample.noCookies Sample.noParams (newRouter Sample.pets None) []
                 (Sample.withBody "/pets?limit=5" (Text "{oops"))
                 (Some (Sample.listing []))
    = Some (Parsed res, st') /\
    requestBody res = Text "{oops".
Proof.
  eexists. eexists. split; [reflexivity|].
  exact (proj1 (C6_requestBody_best_effort Sample.noCookies Sample.noParams
                  (newRouter Sample.pets None) [])
               (Sample.withBody "/pets?limit=5" (Text "{oops"))
               (Some (Sample.listing [])) _ _ eq_refl).
Defined.

(* ------------------------------------------------------------------ *)
(** ** Query parameters that are not exploded *)

(** C4. The two query strings of the specification decode to arrays.
    But the array is not reached for every parameter with
    [explode: false] that the query string holds: when the descriptor of
    the registry lists an operation-level and a path-level [tags], the
    query string [tags=a] makes the second pass call [split] on the array
    the first of them has just stored, which throws; and for a parameter
    whose name holds its own delimiter the first pass stores
    [undefined]. *)
Theorem C4_unexploded_query_decoding
        (cookieParse : string -> list (string * string))
        (bathParams : string -> string -> option (list (string * string))) :
  let r := newRouter Sample.shadowing None in
  let parse p ps :=
    parseRequest cookieParse (accepting bathParams) r [] (Sample.request "GET" p)
                 (Some (Sample.listing ps)) in
  (exists res st',
      parse "/pets?a=1|2|3"
            [Sample.queryParam "a" (Some "pipeDelimited") (Some false)]
      = Some (Parsed res, st') /\
      read st' (query res) = [("a", Many ["1"; "2"; "3"])]) /\
  (exists res st',
      parse "/pets?b=1%202%203"
            [Sample.queryParam "b" (Some "spaceDelimited") (Some false)]
      = Some (Parsed res, st') /\
      read st' (query res) = [("b", Many ["1"; "2"; "3"])]) /\
  In Sample.shadowed (getOperations r) /\
  parseRequest cookieParse (accepting bathParams) r [] (Sample.request "GET" "/pets?tags=a")
               (Some Sample.shadowed)
  = Some (Raises notAFunction, [[("tags", Many ["a"])]]) /\
  (exists res st',
      parse "/pets?a|b=1"
            [Sample.queryParam "a|b" (Some "pipeDelimited") (Some false)]
      = Some (Parsed res, st') /\
      read st' (query res) = [("a|b", Undef)]).
Proof.
  intros r parse. split; [|split; [|split; [|split]]].
  - eexists. eexists. split; reflexivity.
  - eexists. eexists. split; reflexivity.
  - left. reflexivity.
  - reflexivity.
  - eexists. eexists. split; reflexivity.
Qed.

(* ------------------------------------------------------------------ *)
(** ** What a call writes *)

(** A call on a request without a query object leaves every object of
    the store as it was: it only adds the object it decodes. *)
Lemma parseRequest_keeps_store
      (cookieParse : string -> list (string * string))
      (bath : string -> string + (string -> option (list (string * string))))
      (r : OpenAPIRouter) (st : store) (req : Request)
      (op : option Operation) (out : parsed) (st' : store) :
  isObject (req_query req) = false ->
  parseRequest cookieParse bath r st req op = Some (out, st') ->
  forall l, l < List.length st -> read st' l = read st l.
Proof.
  intros Q H l Hl. unfold parseRequest in H.
  assert (A : match req_query req with
              | Some (QueryObject l0) => Some (l0, st)
              | _ => option_map (alloc st)
                       (Qs.parse false (queryStringOf (req_path req)))
              end
              = option_map (alloc st)
                  (Qs.parse false (queryStringOf (req_path req)))).
  { destruct (req_query req) as [[s|l0]|]; try reflexivity. discriminate. }
  rewrite A in H. clear A.
  destruct (Qs.parse false _) as [o|]; [|discriminate].
  cbn [option_map alloc fst snd] in H.
  destruct op as [op|].
  - destruct (Regex.malformed _);
      [injection H as _ <-; now apply read_alloc|].
    destruct (normalizePath _ _); [|discriminate].
    destruct (bath (path op));
      [injection H as _ <-; now apply read_alloc|].
    destruct (match queryStringOf (req_path req) with
              | Some (String _ _) => _ | _ => _ end); [|discriminate].
    destruct (splitUnexploded _ _) as [o2 [e|]]; injection H as _ <-;
      (rewrite read_write_other by lia); now apply read_alloc.
  - injection H as _ <-. now apply read_alloc.
Qed.

(** C9. A call with a query object writes into that object: the caller's
    [{tags: "a,b"}] holds an array after the call. *)
Theorem C9_parseRequest_writes_query_object
        (cookieParse : string -> list (string * string))
        (bathParams : string -> string -> option (list (string * string))) :
  let st := [[("tags", One "a,b")]] in
  let op := Sample.listing [Sample.queryParam "tags" None (Some false)] in
  exists res st',
    parseRequest cookieParse (accepting bathParams) (newRouter Sample.pets None)
                 st (Sample.structured Absent) (Some op)
    = Some (Parsed res, st') /\
    req_query (Sample.structured Absent) = Some (QueryObject 0) /\
    read st 0 = [("tags", One "a,b")] /\
    read st' 0 = [("tags", Many ["a"; "b"])].
Proof.
  intros st op. eexists. eexists. split; [reflexivity|]. now repeat split.
Qed.

(* ------------------------------------------------------------------ *)
(** ** What [matchOperation] returns *)

Lemma filterM_In (A : Type) (f : A -> option bool) (l l' : list A) :
  filterM f l = Some l' ->
  forall x, In x l' <-> In x l /\ f x = Some true.
Proof.
  revert l'. induction l as [|y l IH]; intros l' H x; cbn [filterM] in H.
  - injection H as <-. simpl. tauto.
  - destruct (f y) as [b|] eqn:F; [|discriminate].
    destruct (filterM f l) as [rest|]; [|discriminate].
    injection H as <-. specialize (IH rest eq_refl x).
    destruct b; simpl; rewrite IH; intuition (subst; congruence).
Qed.

Lemma In_orderByDesc (A : Type) (score : A -> nat) (l : list A) (x : A) :
  In x (orderByDesc score l) <-> In x l.
Proof.
  induction l as [|y l IH]; [reflexivity|].
  cbn [orderByDesc fold_right]. fold (orderByDesc score l).
  rewrite (In_insertDesc A score (fun _ => true)), IH. simpl.
  split; intros [H|H]; auto.
Qed.

(** Whatever the router and the mode, an operation that [matchOperation]
    returns is one of the registry, has the request's normalized method,
    and has a path that is the comparison path itself or a template that
    accepts it; and the request passed the root check. *)
Theorem matchOperation_sound (r : OpenAPIRouter) (req : Request)
        (strict : bool) (op : Operation) :
  matchOperation r req strict = Some (Returns op) ->
  In op (getOperations r) /\
  method op = req_method (normalizeRequest req) /\
  Str.startsWith (apiRoot r) (req_path (normalizeRequest req)) = true /\
  exists np,
    normalizePath r (req_path (normalizeRequest req)) = Some np /\
    (path op = np \/ templateMatches np op = Some true).
Proof.
  unfold matchOperation.
  destruct (Str.startsWith _ _); cbn [negb];
    [|destruct strict; discriminate].
  destruct (Regex.malformed (rootPattern r)); [discriminate|].
  destruct (normalizePath _ _) as [np|]; [|discriminate].
  destruct (find _ (filter _ _)) as [e|] eqn:F.
  - intros [= <-]. apply find_some in F as [F M].
    apply filter_In in F as [HIn E].
    apply String.eqb_eq in E. apply String.eqb_eq in M.
    repeat split; trivial. exists np. split; [reflexivity|now left].
  - destruct (someTemplateMalformed r); [discriminate|].
    destruct (filterM _ _) as [tm|] eqn:T; [|discriminate].
    destruct tm as [|t tm]; [destruct strict; discriminate|].
    destruct (find _ (orderByDesc _ _)) as [x|] eqn:S;
      [|destruct strict; discriminate].
    intros [= <-]. apply find_some in S as [S M].
    apply In_orderByDesc in S.
    apply (filterM_In _ _ _ _ T) in S as [HIn Acc].
    apply String.eqb_eq in M.
    repeat split; trivial. exists np. split; [reflexivity|now right].
Qed.

Lemma matchOperation_sound_witness :
  In Sample.petPhotos (getOperations (newRouter Sample.pets None)) /\
  method Sample.petPhotos = "get" /\
  templateMatches "/pets/1/photos" Sample.petPhotos = Some true.
Proof.
  destruct (matchOperation_sound (newRouter Sample.pets None)
              (Sample.request "GET" "/pets/1/photos") true Sample.petPhotos
              eq_refl) as (HIn & M & _ & np & N & [E|T]).
  - injection N as <-. discriminate.
  - injection N as <-. now repeat split.
Defined.

(** On a covered router, a request that passes the root check is
    answered with an operation exactly when some registered operation has
    the request's method and a path that is the comparison path or a
    template accepting it: the specificity order chooses among the
    candidates, it never loses the last one. *)
Theorem matchOperation_succeeds_iff (r : OpenAPIRouter) (req : Request)
        (strict : bool) (np : string) :
  covered r = true ->
  Str.startsWith (apiRoot r) (req_path (normalizeRequest req)) = true ->
  normalizePath r (req_path (normalizeRequest req)) = Some np ->
  (exists op, matchOperation r req strict = Some (Returns op)) <->
  (exists op, In op (getOperations r) /\
              method op = req_method (normalizeRequest req) /\
              (path op = np \/ accepts np op = true)).
Proof.
  intros C S N. split.
  - intros [op H]. exists op.
    destruct (matchOperation_sound r req strict op H)
      as (HIn & M & _ & np' & N' & P).
    rewrite N in N'. injection N' as <-. repeat split; trivial.
    destruct P as [P|P]; [now left|right]. unfold accepts. now rewrite P.
  - intros (op & HIn & M & P).
    rewrite (matchOperation_phases r req strict np C S N). unfold phases.
    destruct (find _ (filter _ _)) as [e|] eqn:F; [now exists e|].
    assert (A : accepts np op = true).
    { destruct P as [P|P]; [|exact P]. exfalso.
      assert (HF : In op (filter (fun o => String.eqb (path o) np)
                                 (getOperations r))).
      { apply filter_In. split; [exact HIn|]. now apply String.eqb_eq. }
      apply (find_none _ _ F) in HF. unfold hasMethod in HF.
      rewrite M, String.eqb_refl in HF. discriminate. }
    assert (HA : In op (filter (accepts np) (getOperations r)))
      by (apply filter_In; now split).
    pose proof (find_orderByDesc Operation specificity
                  (hasMethod (req_method (normalizeRequest req)))
                  (filter (accepts np) (getOperations r))) as B.
    destruct (filter (accepts np) (getOperations r)) as [|o l] eqn:E;
      [destruct HA|].
    destruct (find _ (orderByDesc _ _)) as [x|]; [now exists x|].
    specialize (B op HA). unfold hasMethod in B.
    rewrite M, String.eqb_refl in B. discriminate.
Qed.

Lemma matchOperation_succeeds_iff_witness :
  (exists op, matchOperation (newRouter Sample.overlap None)
                             (Sample.request "get" "/pets/7") false
              = Some (Returns op)) <->
  (exists op, In op (getOperations (newRouter Sample.overlap None)) /\
              method op = "get" /\
              (path op = "/pets/7" \/ accepts "/pets/7" op = true)).
Proof.
  exact (matchOperation_succeeds_iff (newRouter Sample.overlap None)
           (Sample.request "get" "/pets/7") false "/pets/7"
           eq_refl eq_refl eq_refl).
Defined.

(** Every descriptor of the registry has one of the eight methods. *)
Lemma getOperations_methods (r : OpenAPIRouter) (op : Operation) :
  In op (getOperations r) -> In (method op) httpMethods.
Proof.
  intros H. apply In_getOperations in H as (p & item & m & oo & _ & Hm & _ & ->).
  exact Hm.
Qed.

(** A request whose normalized method is not one of the eight lower-case
    method names never gets an operation, whatever the document holds
    under other keys of its path items. *)
Theorem other_method_never_matches (r : OpenAPIRouter) (req : Request)
        (strict : bool) (op : Operation) :
  ~ In (req_method (normalizeRequest req)) httpMethods ->
  matchOperation r req strict <> Some (Returns op).
Proof.
  intros N H. apply matchOperation_sound in H as (HIn & M & _).
  apply N. rewrite <- M. now apply (getOperations_methods r).
Qed.

Lemma other_method_never_matches_witness :
  matchOperation
    (newRouter {| paths := Some [("/pets",
                                  {| pi_parameters := None;
                                     pi_entries := [("connect", Sample.plainOp)] |})];
                  doc_security := None |} None)
    (Sample.request "CONNECT" "/pets") false
  <> Some (Returns {| operationId := None; path := "/pets"; method := "connect";
                      parameters := []; security := [] |}).
Proof.
  apply other_method_never_matches. simpl. intuition discriminate.
Defined.

(** A document without paths (the key is missing, or its object is
    empty) has no operation: the registry is empty, no identifier is
    found, and every request is a 404 in strict mode and [undefined]
    otherwise, as soon as the pattern of the root compiles. *)
Theorem no_paths_no_route (r : OpenAPIRouter) :
  orEmpty (paths (definition r)) = [] ->
  getOperations r = [] /\
  (forall id, getOperation r id = None) /\
  (compiles ("^" ++ apiRoot r ++ "/?") = true ->
   forall req strict,
     matchOperation r req strict = Some (fail strict notFound)).
Proof.
  intros E.
  assert (G : getOperations r = []) by (unfold getOperations; now rewrite E).
  split; [exact G|]. split; [intros id; unfold getOperation; now rewrite G|].
  intros C req strict. unfold matchOperation, someTemplateMalformed.
  rewrite G. destruct (Str.startsWith _ _); cbn [negb]; [|reflexivity].
  rewrite (compiles_not_malformed (rootPattern r) C).
  unfold compiles, normalizePath in *.
  now destruct (Regex.compile _).
Qed.

Lemma no_paths_no_route_witness :
  matchOperation (newRouter {| paths := None; doc_security := None |} (Some "/v1"))
                 (Sample.request "GET" "/v1/pets") true
  = Some (Throws notFound).
Proof.
  exact (proj2 (proj2 (no_paths_no_route
                         (newRouter {| paths := None; doc_security := None |}
                                    (Some "/v1")) eq_refl))
               eq_refl (Sample.request "GET" "/v1/pets") true).
Defined.

(* ------------------------------------------------------------------ *)
(** ** [getOperation] *)

Lemma find_first (A : Type) (f : A -> bool) (l : list A) :
  match find f l with
  | Some x => exists l1 l2, l = (l1 ++ x :: l2)%list /\ f x = true /\
                            forall y, In y l1 -> f y = false
  | None => forall y, In y l -> f y = false
  end.
Proof.
  induction l as [|x l IH]; cbn [find]; [easy|].
  destruct (f x) eqn:F.
  - exists [], l. now repeat split.
  - destruct (find f l) as [z|].
    + destruct IH as (l1 & l2 & -> & Fz & H). exists (x :: l1), l2.
      repeat split; trivial. intros y [<-|Hy]; [exact F|now apply H].
    + intros y [<-|Hy]; [exact F|now apply IH].
Qed.

(** [getOperation] answers with the first descriptor of the registry that
    carries the identifier; a descriptor without an identifier is never
    the answer; and the answer is [undefined] exactly when no descriptor
    carries it. *)
Theorem getOperation_first (r : OpenAPIRouter) (id : string) :
  match getOperation r id with
  | Some op =>
      operationId op = Some id /\
      exists before after,
        getOperations r = (before ++ op :: after)%list /\
        forall o, In o before -> operationId o <> Some id
  | None => forall o, In o (getOperations r) -> operationId o <> Some id
  end.
Proof.
  unfold getOperation.
  pose proof (find_first Operation
                (fun op => match operationId op with
                           | Some i => String.eqb i id
                           | None => false
                           end) (getOperations r)) as F.
  assert (K : forall o, match operationId o with
                        | Some i => String.eqb i id
                        | None => false
                        end = false -> operationId o <> Some id).
  { intros o H E. rewrite E, String.eqb_refl in H. discriminate. }
  destruct (find _ _) as [op|].
  - destruct F as (l1 & l2 & E & Fx & H). split.
    + destruct (operationId op) as [i|]; [|discriminate].
      apply String.eqb_eq in Fx. now subst.
    + exists l1, l2. split; [exact E|]. intros o Ho. apply K. now apply H.
  - intros o Ho. apply K. now apply F.
Qed.

(* ------------------------------------------------------------------ *)
(** ** Normalized paths *)

Lemma dropWhile_head f s :
  match Str.dropWhile f s with
  | String c _ => f c = false
  | EmptyString => True
  end.
Proof.
  induction s as [|c s IH]; cbn [Str.dropWhile]; [easy|].
  destruct (f c) eqn:F; [exact IH|exact F].
Qed.

Lemma dropWhile_allb f g s :
  Str.allb g s = true -> Str.allb g (Str.dropWhile f s) = true.
Proof.
  induction s as [|c s IH]; cbn [Str.dropWhile Str.allb]; [easy|].
  intros H. destruct (f c); [|exact H].
  apply andb_prop in H as [_ H]. now apply IH.
Qed.

Lemma dropWhile_lastChar f s :
  Str.dropWhile f s <> EmptyString ->
  lastChar (Str.dropWhile f s) = lastChar s.
Proof.
  induction s as [|c s IH]; cbn [Str.dropWhile]; [easy|].
  destruct (f c); [|reflexivity]. intros H. rewrite (IH H).
  destruct s; [now cbn in H|reflexivity].
Qed.

Lemma dropWhileEnd_allb f g s :
  Str.allb g s = true -> Str.allb g (Str.dropWhileEnd f s) = true.
Proof.
  induction s as [|c s IH]; cbn [Str.dropWhileEnd Str.allb]; [easy|].
  intros H. apply andb_prop in H as [Hc H].
  destruct (f c && Str.allb f s); [reflexivity|].
  cbn [Str.allb]. now rewrite Hc, IH.
Qed.

Lemma dropWhileEnd_ends f s : endsOutside f (Str.dropWhileEnd f s) = true.
Proof.
  unfold endsOutside. induction s as [|c s IH]; cbn [Str.dropWhileEnd]; [easy|].
  destruct (f c && Str.allb f s) eqn:E; [reflexivity|].
  cbn [lastChar]. destruct (Str.dropWhileEnd f s) as [|d t] eqn:D.
  - destruct (f c) eqn:F; [|reflexivity]. cbn in E.
    clear IH. exfalso.
    assert (A : forall u, Str.dropWhileEnd f u = EmptyString -> Str.allb f u = true).
    { induction u as [|x u IHu]; cbn [Str.dropWhileEnd Str.allb]; [easy|].
      destruct (f x && Str.allb f u) eqn:X; [now intros _|discriminate]. }
    rewrite (A s D) in E. discriminate.
  - exact IH.
Qed.

Lemma endsOutside_not_all f s :
  s <> EmptyString -> endsOutside f s = true -> Str.allb f s = false.
Proof.
  unfold endsOutside. induction s as [|c s IH]; [easy|]. intros _ H.
  destruct s as [|d s].
  - cbn in H |- *. apply negb_true_iff in H. now rewrite H.
  - change (Str.allb f (String c (String d s)))
      with (f c && Str.allb f (String d s)).
    rewrite IH; [apply andb_false_r|discriminate|exact H].
Qed.

Lemma dropWhileEnd_fixed f s :
  endsOutside f s = true -> Str.dropWhileEnd f s = s.
Proof.
  induction s as [|c s IH]; cbn [Str.dropWhileEnd]; [easy|].
  intros H. destruct s as [|d s].
  - cbn in H |- *. apply negb_true_iff in H. now rewrite H.
  - rewrite (endsOutside_not_all f (String d s)), andb_false_r;
      [|discriminate|exact H].
    f_equal. apply IH. exact H.
Qed.

Lemma cut_no_separator d s :
  Str.allb (fun c => negb (Str.same c d)) (fst (Str.cut d s)) = true.
Proof.
  induction s as [|c s IH]; cbn [Str.cut]; [easy|].
  destruct (Str.same c d) eqn:E; [reflexivity|].
  destruct (Str.cut d s) as [a b]. cbn [fst Str.allb] in *.
  now rewrite E, IH.
Qed.

Lemma cut_absent d s :
  Str.allb (fun c => negb (Str.same c d)) s = true -> fst (Str.cut d s) = s.
Proof.
  induction s as [|c s IH]; cbn [Str.cut Str.allb]; [easy|].
  intros H. apply andb_prop in H as [Hc H]. apply negb_true_iff in Hc.
  rewrite Hc. specialize (IH H). destruct (Str.cut d s) as [a b].
  cbn [fst] in *. now rewrite IH.
Qed.

(** Whatever the path of the request, the normalized path is one slash
    followed by a text that does not begin with a slash, does not end
    with a slash and holds no question mark. *)
Theorem normalizedPathOf_shape (p : string) :
  exists rest,
    normalizedPathOf p = String "/" rest /\
    Str.startsWith "/" rest = false /\
    Str.allb notQuestionMark rest = true /\
    endsOutside isSlash rest = true.
Proof.
  unfold normalizedPathOf. eexists. split; [reflexivity|].
  set (noQuery := fst (Str.cut "?" (Str.trim p))).
  set (noTrailing := Str.dropWhileEnd (fun c => Str.same c "/") noQuery).
  split; [|split].
  - pose proof (dropWhile_head (fun c => Str.same c "/") noTrailing) as H.
    destruct (Str.dropWhile _ noTrailing) as [|c t]; [reflexivity|].
    cbn [Str.startsWith]. unfold Str.same in *.
    now rewrite Ascii.eqb_sym, H.
  - apply dropWhile_allb, dropWhileEnd_allb. apply cut_no_separator.
  - pose proof (dropWhileEnd_ends (fun c => Str.same c "/") noQuery) as H.
    fold noTrailing in H. unfold endsOutside in *.
    destruct (Str.dropWhile _ noTrailing) eqn:D; [reflexivity|].
    rewrite <- D, dropWhile_lastChar by (rewrite D; discriminate).
    exact H.
Qed.

Lemma dropWhile_fixed f s :
  match s with String c _ => f c = false | EmptyString => True end ->
  Str.dropWhile f s = s.
Proof. destruct s as [|c s]; [easy|]. cbn. now intros ->. Qed.

Lemma startsWith_slash_false rest :
  Str.startsWith "/" rest = false ->
  match rest with String c _ => isSlash c = false | EmptyString => True end.
Proof.
  destruct rest as [|c t]; [easy|]. cbn [Str.startsWith]. unfold isSlash, Str.same.
  rewrite andb_true_r, Ascii.eqb_sym. easy.
Qed.

(** A canonical path is left as it is. *)
Theorem normalizedPathOf_fixed (p : string) :
  canonicalPath p = true -> normalizedPathOf p = p.
Proof.
  destruct p as [|c rest]; [discriminate|]. cbn [canonicalPath]. intros H.
  apply andb_prop in H as [H Hw]. apply andb_prop in H as [H Hs].
  apply andb_prop in H as [H Hq]. apply andb_prop in H as [Hc Hst].
  apply same_eq in Hc. subst c. apply negb_true_iff in Hst.
  unfold normalizedPathOf, Str.trim.
  rewrite (dropWhile_fixed Str.whiteSpace (String "/" rest)) by reflexivity.
  rewrite (dropWhileEnd_fixed Str.whiteSpace (String "/" rest)).
  2:{ unfold endsOutside in *. destruct rest; [reflexivity|exact Hw]. }
  rewrite cut_absent by (apply andb_true_intro; split; [reflexivity|exact Hq]).
  destruct rest as [|d rest]; [reflexivity|].
  rewrite (dropWhileEnd_fixed _ (String "/" (String d rest))) by exact Hs.
  f_equal. apply startsWith_slash_false in Hst.
  change (Str.dropWhile (fun c => Str.same c "/") (String "/" (String d rest)))
    with (Str.dropWhile isSlash (String d rest)).
  now apply dropWhile_fixed.
Qed.

Lemma normalizedPathOf_fixed_witness :
  normalizedPathOf "/pets/{id}/photos" = "/pets/{id}/photos".
Proof. apply normalizedPathOf_fixed. reflexivity. Defined.

(** With the default root the root check lets every request pass, and
    the comparison path is the normalized path itself. *)
Theorem default_root_comparison_path (r : OpenAPIRouter) (req : Request) :
  apiRoot r = "/" ->
  Str.startsWith (apiRoot r) (req_path (normalizeRequest req)) = true /\
  normalizePath r (req_path (normalizeRequest req))
  = Some (req_path (normalizeRequest req)).
Proof.
  intros E. cbn [normalizeRequest req_path].
  destruct (normalizedPathOf_shape (req_path req)) as (rest & -> & S & _).
  split; [now rewrite E|].
  pose proof (normalizePath_plain r rest) as N. rewrite E in N.
  change ("/" ++ rest) with (String "/" rest) in N. rewrite N by reflexivity.
  apply startsWith_slash_false in S. unfold dropOneSlash.
  destruct rest as [|c t]; [reflexivity|].
  destruct (Ascii.eqb_spec c "/") as [->|Hc]; [discriminate|].
  do 2 f_equal. destruct c as [[] [] [] [] [] [] [] []]; try reflexivity.
  now contradiction Hc.
Qed.

Lemma default_root_comparison_path_witness :
  normalizePath (newRouter Sample.pets None) "/pets/1" = Some "/pets/1".
Proof.
  exact (proj2 (default_root_comparison_path (newRouter Sample.pets None)
                  (Sample.request "get" "pets/1/") eq_refl)).
Defined.

(* ------------------------------------------------------------------ *)
(** ** Normalizing twice, trailing slashes, query strings *)

Lemma lowerChar_idempotent c : Str.lowerChar (Str.lowerChar c) = Str.lowerChar c.
Proof. now destruct c as [[] [] [] [] [] [] [] []]. Qed.

Lemma whiteSpace_lowerChar c : Str.whiteSpace (Str.lowerChar c) = Str.whiteSpace c.
Proof. now destruct c as [[] [] [] [] [] [] [] []]. Qed.

Lemma toLowerCase_idempotent s :
  Str.toLowerCase (Str.toLowerCase s) = Str.toLowerCase s.
Proof.
  induction s as [|c s IH]; [reflexivity|]. cbn [Str.toLowerCase].
  now rewrite lowerChar_idempotent, IH.
Qed.

Lemma dropWhile_toLowerCase s :
  Str.dropWhile Str.whiteSpace (Str.toLowerCase s)
  = Str.toLowerCase (Str.dropWhile Str.whiteSpace s).
Proof.
  induction s as [|c s IH]; [reflexivity|].
  cbn [Str.toLowerCase Str.dropWhile]. rewrite whiteSpace_lowerChar.
  now destruct (Str.whiteSpace c).
Qed.

Lemma allb_toLowerCase s :
  Str.allb Str.whiteSpace (Str.toLowerCase s) = Str.allb Str.whiteSpace s.
Proof.
  induction s as [|c s IH]; [reflexivity|]. cbn [Str.toLowerCase Str.allb].
  now rewrite whiteSpace_lowerChar, IH.
Qed.

Lemma dropWhileEnd_toLowerCase s :
  Str.dropWhileEnd Str.whiteSpace (Str.toLowerCase s)
  = Str.toLowerCase (Str.dropWhileEnd Str.whiteSpace s).
Proof.
  induction s as [|c s IH]; [reflexivity|].
  cbn [Str.toLowerCase Str.dropWhileEnd].
  rewrite whiteSpace_lowerChar, allb_toLowerCase, IH.
  now destruct (Str.whiteSpace c && Str.allb Str.whiteSpace s).
Qed.

Lemma trim_toLowerCase s :
  Str.trim (Str.toLowerCase s) = Str.toLowerCase (Str.trim s).
Proof.
  unfold Str.trim. now rewrite dropWhile_toLowerCase, dropWhileEnd_toLowerCase.
Qed.

Lemma dropWhileEnd_head f c r :
  f c = false ->
  Str.dropWhileEnd f (String c r) = String c (Str.dropWhileEnd f r).
Proof. intros H. cbn [Str.dropWhileEnd]. now rewrite H. Qed.

Lemma trim_idempotent s : Str.trim (Str.trim s) = Str.trim s.
Proof.
  unfold Str.trim.
  pose proof (dropWhile_head Str.whiteSpace s) as H.
  destruct (Str.dropWhile Str.whiteSpace s) as [|c r]; [reflexivity|].
  rewrite (dropWhileEnd_head _ _ _ H).
  rewrite dropWhile_fixed by exact H.
  rewrite <- (dropWhileEnd_head _ _ _ H).
  apply dropWhileEnd_fixed, dropWhileEnd_ends.
Qed.

(** The normalized method is a fixed point of the normalization, and so
    is the whole normalized request when its path does not end in white
    space (which a request path with white space before its question
    mark, or before its trailing slashes, leaves there). *)
Theorem normalizeRequest_idempotent (req : Request) :
  req_method (normalizeRequest (normalizeRequest req))
  = req_method (normalizeRequest req) /\
  (endsOutside Str.whiteSpace (req_path (normalizeRequest req)) = true ->
   normalizeRequest (normalizeRequest req) = normalizeRequest req).
Proof.
  assert (M : Str.toLowerCase (Str.trim (Str.toLowerCase (Str.trim (req_method req))))
              = Str.toLowerCase (Str.trim (req_method req))).
  { now rewrite trim_toLowerCase, trim_idempotent, toLowerCase_idempotent. }
  split; [exact M|]. intros W. unfold normalizeRequest at 1 3.
  cbn [req_method req_path req_headers req_query req_body normalizeRequest] in *.
  rewrite M. f_equal. apply normalizedPathOf_fixed.
  destruct (normalizedPathOf_shape (req_path req)) as (rest & E & S & Q & T).
  rewrite E in *. cbn [canonicalPath]. rewrite S, Q, T. cbn.
  unfold endsOutside in *. destruct rest; [reflexivity|exact W].
Qed.

Lemma normalizeRequest_idempotent_witness :
  normalizeRequest (normalizeRequest (Sample.request " Get " "//pets//?a=1"))
  = normalizeRequest (Sample.request " Get " "//pets//?a=1") /\
  normalizeRequest (Sample.request " Get " "//pets//?a=1")
  = Sample.request "get" "/pets".
Proof.
  split; [|reflexivity].
  exact (proj2 (normalizeRequest_idempotent
                  (Sample.request " Get " "//pets//?a=1")) eq_refl).
Defined.

Lemma allb_app f u v : Str.allb f (u ++ v) = Str.allb f u && Str.allb f v.
Proof.
  induction u as [|c u IH]; [reflexivity|]. cbn [append Str.allb].
  now rewrite IH, andb_assoc.
Qed.

Lemma dropWhile_app_stop f p c q :
  f c = false ->
  Str.dropWhile f (p ++ String c q) = Str.dropWhile f p ++ String c q.
Proof.
  intros H. induction p as [|x p IH]; cbn [append Str.dropWhile].
  - now rewrite H.
  - now destruct (f x).
Qed.

Lemma dropWhileEnd_app_stop f u c q :
  f c = false ->
  Str.dropWhileEnd f (u ++ String c q) = u ++ String c (Str.dropWhileEnd f q).
Proof.
  intros H. induction u as [|x u IH]; cbn [append].
  - now apply dropWhileEnd_head.
  - cbn [Str.dropWhileEnd]. rewrite allb_app. cbn [Str.allb].
    rewrite H, andb_false_r, andb_false_r. now rewrite IH.
Qed.

Lemma dropWhileEnd_app_one f u c :
  f c = true ->
  Str.dropWhileEnd f (u ++ String c "") = Str.dropWhileEnd f u.
Proof.
  intros H. induction u as [|x u IH]; cbn [append Str.dropWhileEnd].
  - cbn. now rewrite H.
  - rewrite allb_app. cbn [Str.allb]. rewrite H, !andb_true_r. now rewrite IH.
Qed.

Lemma cut_app d u v :
  fst (Str.cut d (u ++ v)) =
  if Str.allb (fun c => negb (Str.same c d)) u
  then u ++ fst (Str.cut d v) else fst (Str.cut d u).
Proof.
  induction u as [|c u IH]; [reflexivity|]. cbn [append Str.cut Str.allb].
  destruct (Str.same c d); [reflexivity|]. cbn [negb andb].
  destruct (Str.cut d (u ++ v)) as [a b], (Str.cut d u) as [a' b'].
  cbn [fst] in *. rewrite IH. now destruct (Str.allb _ u).
Qed.

Lemma trim_fixed_tail p :
  endsOutside Str.whiteSpace p = true ->
  Str.trim p = Str.dropWhile Str.whiteSpace p.
Proof.
  intros W. unfold Str.trim. apply dropWhileEnd_fixed.
  unfold endsOutside in *.
  destruct (Str.dropWhile Str.whiteSpace p) eqn:D; [reflexivity|].
  rewrite <- D, dropWhile_lastChar by (rewrite D; discriminate). exact W.
Qed.

Lemma normalizedPathOf_trailing_slash p :
  endsOutside Str.whiteSpace p = true ->
  normalizedPathOf (p ++ "/") = normalizedPathOf p.
Proof.
  intros W. unfold normalizedPathOf.
  rewrite (trim_fixed_tail p W). unfold Str.trim.
  rewrite dropWhile_app_stop by reflexivity.
  rewrite dropWhileEnd_app_stop by reflexivity.
  cbn [Str.dropWhileEnd]. rewrite cut_app.
  destruct (Str.allb _ (Str.dropWhile Str.whiteSpace p)) eqn:Q; [|reflexivity].
  rewrite (cut_absent _ _ Q).
  change (fst (Str.cut "?" "/")) with "/".
  now rewrite dropWhileEnd_app_one.
Qed.

Lemma append_empty (s : string) : s ++ "" = s.
Proof. induction s as [|c s IH]; [reflexivity|]. cbn. now rewrite IH. Qed.

Lemma normalizedPathOf_query p q :
  Str.allb notQuestionMark p = true ->
  endsOutside Str.whiteSpace p = true ->
  normalizedPathOf (p ++ String "?" q) = normalizedPathOf p.
Proof.
  intros Q W. unfold normalizedPathOf.
  rewrite (trim_fixed_tail p W). unfold Str.trim.
  rewrite dropWhile_app_stop by reflexivity.
  rewrite dropWhileEnd_app_stop by reflexivity.
  assert (Q' : Str.allb (fun c => negb (Str.same c "?"))
                        (Str.dropWhile Str.whiteSpace p) = true)
    by now apply dropWhile_allb.
  rewrite cut_app, Q', (cut_absent _ _ Q').
  change (fst (Str.cut "?" (String "?" (Str.dropWhileEnd Str.whiteSpace q))))
    with EmptyString.
  now rewrite append_empty.
Qed.

(** A trailing slash on the request path changes nothing: the request is
    answered as the one without it.  (The path is one that does not end
    in white space.) *)
Theorem trailing_slash_ignored (r : OpenAPIRouter) (req : Request)
        (p : string) (strict : bool) :
  endsOutside Str.whiteSpace p = true ->
  matchOperation r (setPath req (p ++ "/")) strict
  = matchOperation r (setPath req p) strict.
Proof.
  intros W. unfold matchOperation, normalizeRequest.
  cbn [setPath req_path req_method req_headers req_query req_body].
  now rewrite (normalizedPathOf_trailing_slash p W).
Qed.

Lemma trailing_slash_ignored_witness :
  matchOperation (newRouter Sample.pets None)
                 (Sample.request "GET" "/pets/mine/") true
  = matchOperation (newRouter Sample.pets None)
                   (Sample.request "GET" "/pets/mine") true.
Proof.
  exact (trailing_slash_ignored (newRouter Sample.pets None)
           (Sample.request "GET" "") "/pets/mine" true eq_refl).
Defined.

(** A query string on the request path changes nothing in the match: the
    request is answered as the one whose path stops before the question
    mark. *)
Theorem query_string_ignored (r : OpenAPIRouter) (req : Request)
        (p q : string) (strict : bool) :
  Str.allb notQuestionMark p = true ->
  endsOutside Str.whiteSpace p = true ->
  matchOperation r (setPath req (p ++ String "?" q)) strict
  = matchOperation r (setPath req p) strict.
Proof.
  intros Q W. unfold matchOperation, normalizeRequest.
  cbn [setPath req_path req_method req_headers req_query req_body].
  now rewrite (normalizedPathOf_query p q Q W).
Qed.

Lemma query_string_ignored_witness :
  matchOperation (newRouter Sample.pets None)
                 (Sample.request "GET" "/pets/1?expand=owner&x=?") false
  = matchOperation (newRouter Sample.pets None)
                   (Sample.request "GET" "/pets/1") false.
Proof.
  exact (query_string_ignored (newRouter Sample.pets None)
           (Sample.request "GET" "") "/pets/1" "expand=owner&x=?" false
           eq_refl eq_refl).
Defined.

(* ------------------------------------------------------------------ *)
(** ** [normalizePath] outside the root *)

Lemma literal_plain s : literal s = true -> plain s = true.
Proof.
  unfold literal, plain, plainChar. induction s as [|c s IH]; [easy|].
  cbn [Str.allb]. intros H. apply andb_prop in H as [Hc H].
  now rewrite Hc, IH.
Qed.

Lemma run_literal_mismatch (A : Type) s (q : Regex.regex)
      (k : bool -> string -> option A) :
  literal s = true ->
  forall start t,
    Str.startsWith s t = false ->
    Regex.run (atomsOf s ++ q)%list k start t = None.
Proof.
  unfold literal. induction s as [|c s IH]; intros L start t S; [discriminate|].
  cbn [Str.allb] in L. apply andb_prop in L as [Lc L].
  apply negb_true_iff in Lc. destruct (not_special c Lc) as (_ & _ & _ & D & _).
  cbn [atomsOf app]. unfold atomOf. rewrite D. cbn [Regex.run].
  destruct t as [|d t]; [reflexivity|]. cbn [Str.startsWith] in S.
  destruct (Str.same c d); [|reflexivity]. now apply IH.
Qed.

(** [normalizePath] does not check the root: with a root free of
    regular-expression syntax, a path that does not begin with the root
    comes back unchanged.  [parseRequest], which calls it without the
    root check of [matchOperation], then reads the path parameters off
    the whole path. *)
Theorem normalizePath_outside_root (r : OpenAPIRouter) (p : string) :
  literal (apiRoot r) = true ->
  Str.startsWith (apiRoot r) p = false ->
  normalizePath r p = Some p.
Proof.
  intros L S. unfold normalizePath.
  rewrite (compile_rootPattern _ (literal_plain _ L)).
  unfold Regex.replaceFirst.
  assert (N : Regex.search
                (Regex.Bol :: (atomsOf (apiRoot r) ++ [Regex.Opt "/"])%list)
                true p = None).
  { destruct p as [|c p]; cbn [Regex.search Regex.run];
      rewrite (run_literal_mismatch _ _ _ _ L) by exact S; [reflexivity|].
    now rewrite search_bol_false. }
  now rewrite N.
Qed.

Lemma normalizePath_outside_root_witness :
  normalizePath (newRouter Sample.ary (Some "/api")) "/v2/pets" = Some "/v2/pets".
Proof.
  exact (normalizePath_outside_root (newRouter Sample.ary (Some "/api"))
           "/v2/pets" eq_refl eq_refl).
Defined.

(* ------------------------------------------------------------------ *)
(** ** The store around a call of [parseRequest] *)

Lemma length_write st l o : List.length (write st l o) = List.length st.
Proof.
  revert l. induction st as [|x st IH]; intros [|l]; cbn; try reflexivity.
  now rewrite IH.
Qed.

(** A call on a request without a query object decodes the query into a
    new object: the result's query is an address the store did not have,
    the store grows by that one object, and every object it had is as it
    was. *)
Theorem parseRequest_fresh_query
        (cookieParse : string -> list (string * string))
        (bath : string -> string + (string -> option (list (string * string))))
        (r : OpenAPIRouter) (st : store) (req : Request)
        (op : option Operation) (res : ParsedRequest) (st' : store) :
  isObject (req_query req) = false ->
  parseRequest cookieParse bath r st req op = Some (Parsed res, st') ->
  query res = List.length st /\
  List.length st' = S (List.length st) /\
  forall l, l < List.length st -> read st' l = read st l.
Proof.
  intros Q H. split; [|split].
  - unfold parseRequest in H.
    destruct (req_query req) as [[s|l0]|]; try discriminate;
      (destruct (Qs.parse false _) as [o|]; [|discriminate]);
      cbn [option_map alloc fst snd] in H;
      (destruct op as [op|]; [|now injection H as <- _]);
      (destruct (Regex.malformed _); [discriminate|]);
      (destruct (normalizePath _ _); [|discriminate]);
      (destruct (bath (path op)); [discriminate|]);
      (destruct (match queryStringOf (req_path req) with
                 | Some (String _ _) => _ | _ => _ end); [|discriminate]);
      (destruct (splitUnexploded _ _) as [o2 [e|]]; [discriminate|]);
      now injection H as <- _.
  - unfold parseRequest in H.
    destruct (req_query req) as [[s|l0]|]; try discriminate;
      (destruct (Qs.parse false _) as [o|]; [|discriminate]);
      cbn [option_map alloc fst snd] in H;
      (destruct op as [op|];
       [|injection H as _ <-; rewrite length_app; cbn; lia]);
      (destruct (Regex.malformed _); [discriminate|]);
      (destruct (normalizePath _ _); [|discriminate]);
      (destruct (bath (path op)); [discriminate|]);
      (destruct (match queryStringOf (req_path req) with
                 | Some (String _ _) => _ | _ => _ end); [|discriminate]);
      (destruct (splitUnexploded _ _) as [o2 [e|]]; [discriminate|]);
      injection H as _ <-; rewrite length_write, length_app; cbn; lia.
  - exact (parseRequest_keeps_store cookieParse bath r st req op
             (Parsed res) st' Q H).
Qed.

Lemma parseRequest_fresh_query_witness :
  exists res st',
    parseRequest Sample.noCookies Sample.noParams (newRouter Sample.pets None)
                 [[("tags", One "a,b")]]
                 (Sample.request "GET" "/pets?tags=c,d")
                 (Some (Sample.listing [Sample.queryParam "tags" None (Some false)]))
    = Some (Parsed res, st') /\
    query res = 1 /\
    read st' 0 = [("tags", One "a,b")] /\
    read st' 1 = [("tags", Many ["c"; "d"])].
Proof.
  eexists. eexists. split; [reflexivity|].
  destruct (parseRequest_fresh_query Sample.noCookies Sample.noParams
              (newRouter Sample.pets None) [[("tags", One "a,b")]]
              (Sample.request "GET" "/pets?tags=c,d")
              (Some (Sample.listing [Sample.queryParam "tags" None (Some false)]))
              _ _ eq_refl eq_refl) as (Hq & _ & Hk).
  split; [exact Hq|]. split; [|reflexivity].
  exact (Hk 0 (Nat.lt_0_succ 0)).
Defined.

(* ------------------------------------------------------------------ *)
(** ** When the second pass throws *)

Lemma splitAll_error sel : forall o e,
  snd (splitAll sel o) = Some e -> e = notAFunction.
Proof.
  induction sel as [|p sel IH]; intros o e; cbn [splitAll]; [discriminate|].
  destruct (lookup (name p) o) as [[| s |]|]; try (now intros [= <-]).
  apply IH.
Qed.

Lemma splitAll_raises_nonstring sel : forall o,
  (exists p, In p sel /\ isString (lookup (name p) o) = false) ->
  snd (splitAll sel o) = Some notAFunction.
Proof.
  induction sel as [|p sel IH]; intros o (q & HIn & Hq); [destruct HIn|].
  cbn [splitAll].
  destruct (lookup (name p) o) as [[| s |]|] eqn:L; try reflexivity.
  apply IH. destruct HIn as [<-|HIn]; [rewrite L in Hq; discriminate|].
  exists q. split; [exact HIn|].
  destruct (String.eqb_spec (name q) (name p)) as [E|N].
  - rewrite E, lookup_set_same. reflexivity.
  - rewrite lookup_set_other by exact N. exact Hq.
Qed.

Lemma splitAll_ok_iff sel : forall o,
  (forall p, In p sel -> isString (lookup (name p) o) = true) ->
  snd (splitAll sel o) = None <-> NoDup (map name sel).
Proof.
  induction sel as [|p sel IH]; intros o H.
  - cbn. split; [constructor|reflexivity].
  - cbn [splitAll map].
    pose proof (H p (or_introl eq_refl)) as Hp.
    destruct (lookup (name p) o) as [[| s |]|] eqn:L; try discriminate.
    set (o1 := Qs.set (name p) (Many (Str.split (delimiter p) s)) o).
    destruct (in_dec string_dec (name p) (map name sel)) as [D|D].
    + split.
      * intros S. exfalso. apply in_map_iff in D as (q & E & HIn).
        rewrite (splitAll_raises_nonstring sel o1) in S; [discriminate|].
        exists q. split; [exact HIn|]. unfold o1.
        now rewrite E, lookup_set_same.
      * intros ND. inversion ND; subst. contradiction.
    + assert (H1 : forall q, In q sel -> isString (lookup (name q) o1) = true).
      { intros q HIn. unfold o1. rewrite lookup_set_other.
        - apply H. now right.
        - intros E. apply D. rewrite <- E. now apply in_map. }
      rewrite (IH o1 H1). split; [now constructor|].
      intros ND. now inversion ND.
Qed.

(** The second pass throws exactly when two of the parameters it goes
    through have the same name, and then with the one error a call of
    [split] on an array gives. *)
Lemma splitUnexploded_throws_iff parameters o :
  (snd (splitUnexploded parameters o) = Some notAFunction <->
   ~ NoDup (map name (selected parameters o))) /\
  (forall e, snd (splitUnexploded parameters o) = Some e -> e = notAFunction).
Proof.
  unfold splitUnexploded. fold (selected parameters o).
  assert (S : forall p, In p (selected parameters o) ->
                        isString (lookup (name p) o) = true).
  { intros p HIn. unfold selected in HIn. now apply filter_In in HIn as [_ ?]. }
  pose proof (splitAll_ok_iff _ o S) as I.
  pose proof (splitAll_error (selected parameters o) o) as E.
  split; [|exact E]. split.
  - intros T ND. apply I in ND. congruence.
  - intros ND. destruct (snd (splitAll _ o)) as [e|] eqn:R.
    + now rewrite (E e eq_refl).
    + exfalso. apply ND. now apply I.
Qed.

(** With a query object and an operation (and a root whose pattern
    compiles), [parseRequest] throws in two cases and no other: [bath]
    rejects the template of the operation, and the error is the one
    [bath] throws; or [bath] takes the template and the operation's
    parameters hold two query parameters with [explode: false] of one
    name for which the object holds a string (as the registry builds them
    when an operation redeclares a parameter of its path item), and the
    error is the one of calling [split] on an array. *)
Theorem parseRequest_throws_iff
        (cookieParse : string -> list (string * string))
        (bath : string -> string + (string -> option (list (string * string))))
        (r : OpenAPIRouter) (st : store) (req : Request) (l : loc)
        (op : Operation) (e : string) :
  req_query req = Some (QueryObject l) ->
  compiles (rootPattern r) = true ->
  (exists st', parseRequest cookieParse bath r st req (Some op)
               = Some (Raises e, st')) <->
  bath (path op) = inl e \/
  ((exists paramsOf, bath (path op) = inr paramsOf) /\
   e = notAFunction /\
   ~ NoDup (map name (selected (parameters op) (read st l)))).
Proof.
  intros Q C. unfold parseRequest. rewrite Q. cbn [fst snd isObject].
  rewrite (compiles_not_malformed _ C).
  unfold compiles, rootPattern, normalizePath in *.
  destruct (Regex.compile _) as [rx|]; [|discriminate].
  destruct (bath (path op)) as [e'|paramsOf].
  { split.
    - intros [st' [= -> _]]. now left.
    - intros [[= ->]|[[f [=]] _]]. now eexists. }
  assert (O : match queryStringOf (req_path req) with
              | Some (String c s) => Some (read st l)
              | _ => Some (read st l)
              end = Some (read st l)).
  { now destruct (queryStringOf _) as [[|]|]. }
  rewrite O. clear O.
  destruct (splitUnexploded_throws_iff (parameters op) (read st l)) as [I E].
  destruct (splitUnexploded (parameters op) (read st l)) as [o2 [e'|]];
    cbn [snd] in *.
  - rewrite (E e' eq_refl) in *. split.
    + intros [st' [= <- _]]. right. split; [now eexists|].
      split; [reflexivity|now apply I].
    + intros [[=]|(_ & -> & _)]. now eexists.
  - split.
    + intros [st' [=]].
    + intros [[=]|(_ & _ & ND)]. apply I in ND. discriminate.
Qed.

Lemma parseRequest_throws_iff_witness :
  (exists st',
      parseRequest Sample.noCookies Sample.noParams
                   (newRouter Sample.shadowing None)
                   [[("tags", One "a|b")]] (Sample.structured Absent)
                   (Some Sample.shadowed)
      = Some (Raises notAFunction, st')) /\
  ~ NoDup (map name (selected (parameters Sample.shadowed) [("tags", One "a|b")])).
Proof.
  pose proof (parseRequest_throws_iff Sample.noCookies Sample.noParams
                (newRouter Sample.shadowing None) [[("tags", One "a|b")]]
                (Sample.structured Absent) 0 Sample.shadowed notAFunction
                eq_refl eq_refl) as I.
  assert (D : ~ NoDup (map name (selected (parameters Sample.shadowed)
                                          (read [[("tags", One "a|b")]] 0)))).
  { cbn. intros ND. inversion ND as [|? ? Hn _]. apply Hn. now left. }
  split; [|exact D]. apply I. right. split; [now eexists|]. now split.
Defined.

(* ------------------------------------------------------------------ *)
(** ** What the second pass guarantees *)

Lemma splitValue_never_string parameters p v :
  In p parameters -> unexplodedQuery p = true ->
  isString (splitValue parameters (name p) v) = false.
Proof.
  intros HIn U. unfold splitValue. destruct v as [[| s |]|]; try reflexivity.
  destruct (find _ parameters) as [q|] eqn:F; [reflexivity|].
  apply (find_none _ _ F) in HIn. unfold named in HIn.
  now rewrite U, String.eqb_refl in HIn.
Qed.

(** In every call with an operation that returns, whether the query came
    as an object or was decoded from the path, no query parameter that
    the operation declares with [explode: false] is left holding a
    string: it holds an array, or [undefined], or is absent. *)
Theorem unexploded_never_string
        (cookieParse : string -> list (string * string))
        (bath : string -> string + (string -> option (list (string * string))))
        (r : OpenAPIRouter) (st : store) (req : Request)
        (op : Operation) (res : ParsedRequest) (st' : store) :
  (forall l, req_query req = Some (QueryObject l) -> l < List.length st) ->
  parseRequest cookieParse bath r st req (Some op)
  = Some (Parsed res, st') ->
  forall p, In p (parameters op) -> unexplodedQuery p = true ->
            isString (lookup (name p) (read st' (query res))) = false.
Proof.
  intros V H p HIn U. unfold parseRequest in H.
  destruct (match req_query req with
            | Some (QueryObject l) => Some (l, st)
            | _ => option_map (alloc st) (Qs.parse false (queryStringOf (req_path req)))
            end) as [[q st1]|] eqn:A; [|discriminate].
  assert (B : q < List.length st1).
  { destruct (req_query req) as [[s|l]|].
    - destruct (Qs.parse false _); [|discriminate]. injection A as <- <-.
      rewrite length_app. cbn. lia.
    - injection A as <- <-. now apply V.
    - destruct (Qs.parse false _); [|discriminate]. injection A as <- <-.
      rewrite length_app. cbn. lia. }
  cbn [fst snd] in H.
  destruct (Regex.malformed _); [discriminate|].
  destruct (normalizePath _ _); [|discriminate].
  destruct (bath (path op)); [discriminate|].
  destruct (match queryStringOf (req_path req) with
            | Some (String _ _) => _ | _ => _ end) as [o1|]; [|discriminate].
  destruct (splitUnexploded (parameters op) o1) as [o2 [e|]] eqn:S;
    [discriminate|].
  injection H as <- <-. cbn [query].
  rewrite read_write_same by exact B.
  apply splitUnexploded_spec in S as [_ W]. rewrite W.
  now apply splitValue_never_string.
Qed.

Lemma unexploded_never_string_witness :
  exists res st',
    parseRequest Sample.noCookies Sample.noParams (newRouter Sample.pets None) []
                 (Sample.request "GET" "/pets?tags=solo")
                 (Some (Sample.listing
                          [Sample.queryParam "tags" (Some "pipeDelimited") (Some false)]))
    = Some (Parsed res, st') /\
    isString (lookup "tags" (read st' (query res))) = false /\
    lookup "tags" (read st' (query res)) = Some (Many ["solo"]).
Proof.
  eexists. eexists. split; [reflexivity|]. split; [|reflexivity].
  refine (unexploded_never_string Sample.noCookies Sample.noParams
            (newRouter Sample.pets None) []
            (Sample.request "GET" "/pets?tags=solo")
            (Sample.listing
               [Sample.queryParam "tags" (Some "pipeDelimited") (Some false)])
            _ _ _ eq_refl
            (Sample.queryParam "tags" (Some "pipeDelimited") (Some false))
            (or_introl eq_refl) eq_refl).
  intros l [=].
Defined.

(* ------------------------------------------------------------------ *)
(** ** Header names *)

Lemma find_app_last (A : Type) (f : A -> bool) (l : list A) (x : A) :
  find f (l ++ [x])%list =
  match find f l with
  | Some y => Some y
  | None => if f x then Some x else None
  end.
Proof. rewrite find_merged. cbn. now destruct (find f l), (f x). Qed.

Lemma lookup_lowerCaseKeys_from h : forall acc k,
  lookup k (fold_left (fun o '(k', v) => Qs.set (Str.toLowerCase k') v o) h acc) =
  match find (fun e => String.eqb (Str.toLowerCase (fst e)) k) (rev h) with
  | Some e => Some (snd e)
  | None => lookup k acc
  end.
Proof.
  induction h as [|[k0 v0] h IH]; intros acc k; [reflexivity|].
  cbn [fold_left rev]. rewrite IH, find_app_last. cbn [fst snd].
  destruct (find _ (rev h)); [reflexivity|].
  destruct (String.eqb_spec (Str.toLowerCase k0) k) as [<-|N].
  - apply lookup_set_same.
  - apply lookup_set_other. congruence.
Qed.

Lemma keys_set k v (o : Qs.object) x :
  In x (map fst (Qs.set k v o)) <-> x = k \/ In x (map fst o).
Proof.
  induction o as [|[k0 w] o IH]; cbn [Qs.set map fst In].
  - intuition.
  - destruct (String.eqb_spec k0 k) as [->|N]; cbn [map fst In].
    + intuition.
    + rewrite IH. intuition.
Qed.

Lemma NoDup_set k v (o : Qs.object) :
  NoDup (map fst o) -> NoDup (map fst (Qs.set k v o)).
Proof.
  induction o as [|[k0 w] o IH]; cbn [Qs.set map fst]; intros ND.
  - constructor; [easy|constructor].
  - inversion ND as [|? ? Hn ND']; subst.
    destruct (String.eqb_spec k0 k) as [->|N]; cbn [map fst].
    + now constructor.
    + constructor; [|now apply IH].
      intros HIn. apply keys_set in HIn as [E|HIn]; [congruence|contradiction].
Qed.

Lemma lowerCaseKeys_keys_from h : forall acc,
  NoDup (map fst acc) ->
  (forall k, In k (map fst acc) -> Str.toLowerCase k = k) ->
  let o := fold_left (fun o '(k', v) => Qs.set (Str.toLowerCase k') v o) h acc in
  NoDup (map fst o) /\ forall k, In k (map fst o) -> Str.toLowerCase k = k.
Proof.
  induction h as [|[k0 v0] h IH]; intros acc ND L; [now split|].
  cbn [fold_left]. apply IH; [now apply NoDup_set|].
  intros k HIn. apply keys_set in HIn as [->|HIn]; [|now apply L].
  apply toLowerCase_idempotent.
Qed.

(** The headers of a parsed request: every name is in lower case, no name
    occurs twice, and a name holds the value of the last header of the
    request that has this name up to case. *)
Theorem parsed_headers
        (cookieParse : string -> list (string * string))
        (bath : string -> string + (string -> option (list (string * string))))
        (r : OpenAPIRouter) (st : store) (req : Request)
        (op : option Operation) (res : ParsedRequest) (st' : store) :
  parseRequest cookieParse bath r st req op = Some (Parsed res, st') ->
  NoDup (map fst (headers res)) /\
  (forall k, In k (map fst (headers res)) -> Str.toLowerCase k = k) /\
  (forall k, lookup k (headers res) =
             option_map snd
               (find (fun e => String.eqb (Str.toLowerCase (fst e)) k)
                     (rev (req_headers req)))).
Proof.
  intros H.
  assert (E : headers res = lowerCaseKeys (req_headers req)).
  { unfold parseRequest in H.
    destruct (match req_query req with
              | Some (QueryObject l) => Some (l, st)
              | _ => option_map (alloc st) (Qs.parse false (queryStringOf (req_path req)))
              end) as [[q st1]|]; [|discriminate].
    cbn [fst snd] in H. destruct op as [op|]; [|now injection H as <- _].
    destruct (Regex.malformed _); [discriminate|].
    destruct (normalizePath _ _); [|discriminate].
    destruct (bath (path op)); [discriminate|].
    destruct (match queryStringOf (req_path req) with
              | Some (String _ _) => _ | _ => _ end); [|discriminate].
    destruct (splitUnexploded _ _) as [o2 [e|]]; [discriminate|].
    now injection H as <- _. }
  rewrite E. unfold lowerCaseKeys.
  destruct (lowerCaseKeys_keys_from (req_headers req) [] (NoDup_nil _))
    as [ND L]; [easy|].
  split; [exact ND|]. split; [exact L|].
  intros k. rewrite lookup_lowerCaseKeys_from.
  now destruct (find _ (rev (req_headers req))).
Qed.

Lemma parsed_headers_witness :
  exists res st',
    parseRequest Sample.noCookies Sample.noParams (newRouter Sample.pets None) []
                 acceptTwice None
    = Some (Parsed res, st') /\
    headers res = [("accept", One "b"); ("x-id", One "1")] /\
    lookup "accept" (headers res) = Some (One "b").
Proof.
  eexists. eexists. split; [reflexivity|]. split; [reflexivity|].
  rewrite (proj2 (proj2 (parsed_headers Sample.noCookies Sample.noParams
                           (newRouter Sample.pets None) [] acceptTwice None
                           _ _ eq_refl))).
  reflexivity.
Defined.

(* ------------------------------------------------------------------ *)
(** ** What a template accepts *)

Lemma replaceFrom_render inside t :
  replaceFrom "[^/]+" inside t = render (piecesFrom inside t).
Proof.
  revert inside. induction t as [|c t IH]; intros inside; [reflexivity|].
  cbn [replaceFrom piecesFrom]. destruct inside.
  - destruct (Str.same c "}"); apply IH.
  - destruct (Str.same c "{" && closes t); cbn [render]; now rewrite IH.
Qed.

Lemma compileFrom_render ps :
  literalPieces ps = true ->
  Regex.compileFrom 0 (render ps ++ "$")
  = Some (map atomOfPiece ps ++ [Regex.Eol])%list.
Proof.
  induction ps as [|[c|] ps IH]; intros L; [reflexivity| |].
  - cbn [literalPieces forallb] in L. apply andb_prop in L as [Lc L].
    apply negb_true_iff in Lc.
    destruct (not_special c Lc) as (_ & _ & _ & D & _).
    cbn [render append].
    rewrite compileFrom_plainChar.
    + rewrite (IH L). unfold atomOf. now rewrite D.
    + unfold plainChar. now rewrite Lc.
    + destruct ps as [|[d|] ps']; [reflexivity| |reflexivity].
      cbn [render append]. cbn [literalPieces forallb] in L.
      apply andb_prop in L as [Ld _]. apply negb_true_iff in Ld.
      now apply not_special in Ld.
  - cbn [literalPieces forallb] in L. cbn [andb] in L.
    change (Regex.compileFrom 0 (render (Hole :: ps) ++ "$"))
      with (option_map (cons Regex.NotSlashPlus)
                       (Regex.compileFrom 0 (render ps ++ "$"))).
    now rewrite (IH L).
Qed.

Lemma run_plus_step (A : Type) (p : Regex.regex)
      (k : bool -> string -> option A) start d r :
  Regex.run (Regex.NotSlashPlus :: p) k start (String d r) =
  if Str.same d "/" then None
  else match Regex.run (Regex.NotSlashPlus :: p) k start r with
       | Some a => Some a
       | None => Regex.run p k false r
       end.
Proof. reflexivity. Qed.

Lemma Fits_hole_inv ps s :
  Fits (Hole :: ps) s ->
  exists a b, s = a ++ b /\ a <> EmptyString /\
              Str.allb (fun c => negb (isSlash c)) a = true /\ Fits ps b.
Proof. intros H. inversion H; subst. now exists a, b. Qed.

Lemma run_fits ps : forall start s,
  Regex.run (map atomOfPiece ps ++ [Regex.Eol])%list
            (fun _ rest => Some rest) start s <> None
  <-> Fits ps s.
Proof.
  induction ps as [|[c|] ps IH]; intros start s.
  - destruct s as [|d s]; cbn.
    + split; [intros _; constructor|easy].
    + split; [congruence|intros H; inversion H].
  - cbn [map atomOfPiece app Regex.run]. destruct s as [|d s].
    + split; [easy|intros H; inversion H].
    + destruct (Ascii.eqb_spec c d) as [<-|N]; unfold Str.same.
      * rewrite Ascii.eqb_refl, IH. split; [now constructor|].
        intros H. now inversion H.
      * apply Ascii.eqb_neq in N. rewrite N. split; [easy|].
        intros H. inversion H; subst. now rewrite Ascii.eqb_refl in N.
  - cbn [map atomOfPiece app].
    induction s as [|d s IHs].
    + split; [easy|]. intros H.
      apply Fits_hole_inv in H as (a & b & E & Ha & _).
      destruct a; [contradiction|discriminate].
    + rewrite run_plus_step. destruct (Str.same d "/") eqn:D.
      * split; [easy|]. intros H.
        apply Fits_hole_inv in H as (a & b & E & Ha & Hs & _).
        destruct a as [|x a]; [contradiction|]. injection E as <- _.
        cbn [Str.allb] in Hs. unfold isSlash in Hs. rewrite D in Hs.
        discriminate.
      * split.
        -- intros H.
           destruct (Regex.run (Regex.NotSlashPlus :: _) _ start s) eqn:R.
           ++ assert (F : Fits (Hole :: ps) s) by (apply IHs; congruence).
              apply Fits_hole_inv in F as (a & b & -> & Ha & Hs & Hb).
              apply (@Fits_hole ps (String d a) b); trivial; [discriminate|].
              cbn [Str.allb]. unfold isSlash at 1. now rewrite D, Hs.
           ++ apply (@Fits_hole ps (String d "") s); [discriminate| |].
              ** cbn [Str.allb]. unfold isSlash. now rewrite D.
              ** now apply (IH false).
        -- intros H.
           apply Fits_hole_inv in H as (a & b & E & Ha & Hs & Hb).
           destruct a as [|x a]; [contradiction|]. injection E as <- E.
           destruct (Regex.run (Regex.NotSlashPlus :: _) _ start s) eqn:R;
             [easy|].
           destruct a as [|y a].
           ++ cbn in E. subst s. now apply (IH false).
           ++ exfalso. cbn [Str.allb] in Hs. apply andb_prop in Hs as [_ Hs].
              assert (F : Fits (Hole :: ps) s).
              { rewrite E. apply Fits_hole; trivial. discriminate. }
              apply IHs in F. congruence.
Qed.

(** For a template whose text outside the placeholders is free of
    regular-expression syntax, the pattern the code builds accepts
    exactly the paths that the template fits: ordinary characters one by
    one, and for each placeholder one or more characters other than a
    slash, from the first character of the path to the last. *)
Theorem accepts_iff_fits (op : Operation) (np : string) :
  literalPieces (pieces (path op)) = true ->
  accepts np op = true <-> Fits (pieces (path op)) np.
Proof.
  intros L. unfold accepts, templateMatches, pathPattern, replacePlaceholders.
  rewrite replaceFrom_render. fold (pieces (path op)). unfold Regex.compile.
  change (Regex.compileFrom 0 ("^" ++ render (pieces (path op)) ++ "$"))
    with (option_map (cons Regex.Bol)
            (Regex.compileFrom 0 (render (pieces (path op)) ++ "$"))).
  rewrite (compileFrom_render _ L). cbn [option_map]. unfold Regex.test.
  rewrite <- (run_fits (pieces (path op)) true np).
  destruct np as [|c s]; cbn [Regex.search Regex.run].
  - now destruct (Regex.run _ _ true "").
  - destruct (Regex.run _ _ true (String c s)); [easy|].
    now rewrite search_bol_false.
Qed.

Lemma accepts_iff_fits_witness :
  accepts "/pets/42/photos" Sample.petPhotos = true /\
  Fits (pieces "/pets/{id}/photos") "/pets/42/photos".
Proof.
  split; [reflexivity|].
  exact (proj1 (accepts_iff_fits Sample.petPhotos "/pets/42/photos" eq_refl)
               eq_refl).
Defined.

Lemma replaceFrom_empty_length inside t :
  String.length (replaceFrom "" inside t)
  = List.length (filter isCh (piecesFrom inside t)).
Proof.
  revert inside. induction t as [|c t IH]; intros inside; [reflexivity|].
  cbn [replaceFrom piecesFrom]. destruct inside.
  - destruct (Str.same c "}"); apply IH.
  - destruct (Str.same c "{" && closes t); cbn [append filter isCh];
      [apply IH|]. cbn [String.length List.length]. now rewrite IH.
Qed.

(** The specificity of an operation is the number of characters of its
    template that stand outside the placeholders: the slashes count, the
    names of the placeholders and their braces do not. *)
Theorem specificity_counts_literals (op : Operation) :
  specificity op = List.length (filter isCh (pieces (path op))).
Proof. apply replaceFrom_empty_length. Qed.

(* ------------------------------------------------------------------ *)
(** ** The outcomes of [matchOperation] on a covered router *)

(** On a covered router, for a request that passes the root check:
    strict mode ends in an operation or in one of the two errors, and
    non-strict mode in the same operation or in [undefined].  The error
    is the 404 one exactly when no template accepts the comparison path
    and no operation with that very path has the request's method (an
    operation with that very path and another method does not turn it
    into a 405 when its own pattern does not accept the path); it is the
    405 one exactly when some template accepts the comparison path and
    no operation whose path is the comparison path or accepts it has the
    method. *)
Theorem matchOperation_outcomes (r : OpenAPIRouter) (req : Request) (np : string) :
  covered r = true ->
  Str.startsWith (apiRoot r) (req_path (normalizeRequest req)) = true ->
  normalizePath r (req_path (normalizeRequest req)) = Some np ->
  exists o,
    matchOperation r req true = Some o /\
    matchOperation r req false = Some (lenient o) /\
    ((exists op, o = Returns op) \/ o = Throws notFound
     \/ o = Throws methodNotAllowed) /\
    (o = Throws notFound <->
     (forall op, In op (getOperations r) -> accepts np op = false) /\
     (forall op, In op (getOperations r) -> path op = np ->
                 method op <> req_method (normalizeRequest req))) /\
    (o = Throws methodNotAllowed <->
     (exists op, In op (getOperations r) /\ accepts np op = true) /\
     (forall op, In op (getOperations r) ->
                 path op = np \/ accepts np op = true ->
                 method op <> req_method (normalizeRequest req))).
Proof.
  intros C S N. set (m := req_method (normalizeRequest req)).
  exists (phases r np m true).
  rewrite !(matchOperation_phases r req _ np C S N). fold m.
  destruct (phases_lenient r np m) as (L & _ & _). rewrite L.
  split; [reflexivity|]. split; [reflexivity|].
  unfold phases.
  destruct (find _ (filter _ _)) as [e|] eqn:F.
  - apply find_some in F as [F M]. apply filter_In in F as [HIn E].
    apply String.eqb_eq in E. apply String.eqb_eq in M.
    split; [left; now exists e|]. split; (split; [discriminate|]).
    + intros [_ H]. now destruct (H e HIn E).
    + intros [_ H]. now destruct (H e HIn (or_introl E)).
  - assert (X : forall op, In op (getOperations r) -> path op = np ->
                           method op <> m).
    { intros op HIn E Hm.
      assert (HF : In op (filter (fun o => String.eqb (path o) np)
                                 (getOperations r)))
        by (apply filter_In; split; [exact HIn|now apply String.eqb_eq]).
      apply (find_none _ _ F) in HF. unfold hasMethod in HF.
      rewrite Hm, String.eqb_refl in HF. discriminate. }
    pose proof (find_orderByDesc Operation specificity (hasMethod m)
                  (filter (accepts np) (getOperations r))) as B.
    destruct (filter (accepts np) (getOperations r)) as [|o l] eqn:E.
    + assert (A : forall op, In op (getOperations r) -> accepts np op = false).
      { intros op HIn. destruct (accepts np op) eqn:Acc; [|reflexivity].
        assert (In op []) as []. rewrite <- E. apply filter_In. now split. }
      split; [right; now left|]. split.
      * split; [now intros _|reflexivity].
      * split; [discriminate|]. intros [(op & HIn & Acc) _].
        rewrite (A op HIn) in Acc. discriminate.
    + assert (Ho : In o (getOperations r) /\ accepts np o = true).
      { apply filter_In. rewrite E. now left. }
      destruct (find _ (orderByDesc _ _)) as [x|].
      * destruct B as (l1 & l2 & El & Mx & _).
        assert (Hx : In x (getOperations r) /\ accepts np x = true).
        { apply filter_In. rewrite E, El. apply in_or_app. right. now left. }
        apply String.eqb_eq in Mx.
        split; [left; now exists x|]. split; (split; [discriminate|]).
        -- intros [A _]. destruct Ho as [Ho Acc]. rewrite (A o Ho) in Acc.
           discriminate.
        -- intros [_ H]. now destruct (H x (proj1 Hx) (or_intror (proj2 Hx))).
      * split; [right; now right|]. split.
        -- split; [discriminate|]. intros [A _]. destruct Ho as [Ho Acc].
           rewrite (A o Ho) in Acc. discriminate.
        -- split; [|reflexivity]. intros _. split; [now exists o|].
           intros op HIn [P|P]; [now apply X|].
           assert (HF : In op (o :: l))
             by (rewrite <- E; apply filter_In; now split).
           specialize (B op HF). unfold hasMethod in B. intros Hm.
           rewrite Hm, String.eqb_refl in B. discriminate.
Qed.

Lemma matchOperation_outcomes_witness :
  let r := newRouter Sample.odata None in
  let req := Sample.request "POST" "/$metadata" in
  exists o,
    matchOperation r req true = Some o /\
    matchOperation r req false = Some (lenient o) /\
    ((exists op, o = Returns op) \/ o = Throws notFound
     \/ o = Throws methodNotAllowed) /\
    (o = Throws notFound <->
     (forall op, In op (getOperations r) -> accepts "/$metadata" op = false) /\
     (forall op, In op (getOperations r) -> path op = "/$metadata" ->
                 method op <> req_method (normalizeRequest req))) /\
    (o = Throws methodNotAllowed <->
     (exists op, In op (getOperations r) /\ accepts "/$metadata" op = true) /\
     (forall op, In op (getOperations r) ->
                 path op = "/$metadata" \/ accepts "/$metadata" op = true ->
                 method op <> req_method (normalizeRequest req))).
Proof.
  exact (matchOperation_outcomes (newRouter Sample.odata None)
           (Sample.request "POST" "/$metadata") "/$metadata"
           eq_refl eq_refl eq_refl).
Defined.
